(** * gotezos: the request-execution core of the go-tezos client

    A shallow embedding of [gotezos.go]: the host normaliser
    ([cleanseHost]), the query builder ([constructQueryParams]), the error
    classifier ([handleRPCError]), the transport executor ([do]), the
    constructor ([New]) and the facade ([get], [post], [delete], the two
    setters), together with the parts of the Go standard library they
    call ([strings], [fmt], [net/url], [encoding/json]).

    Go strings and byte slices are sequences of bytes: both are [string]
    here (a [string] of the Standard Library is a list of 8-bit
    characters), and the conversion [string(byts)] is the identity.  A nil
    byte slice is the empty string. *)

From Stdlib Require Import ZArith Ascii String List Lia Bool.
From stdpp Require Import base option list gmap strings sorting pretty.

Local Open Scope string_scope.
Local Open Scope Z_scope.
Local Open Scope list_scope.

(** ** Run-time faults

    Go code either returns or panics.  [outcome A] is the result of a call
    that may panic; the two panics this file can raise are an index (or
    slice bound) out of range and a nil pointer dereference. *)

Inductive fault : Type :=
  | IndexOutOfRange
  | NilDereference.

Inductive outcome (A : Type) : Type :=
  | Returned (a : A)
  | Panic (f : fault).

Arguments Returned {A} a.
Arguments Panic {A} f.

Definition obind {A B : Type} (m : outcome A) (k : A → outcome B) : outcome B :=
  match m with
  | Returned a => k a
  | Panic f => Panic f
  end.

Notation "x ←! m ; k" := (obind m (λ x, k))
  (at level 20, m at level 100, k at level 200, right associativity,
   format "x  ←!  m ;  '/' k").

(** ** Go strings *)

Module GoString.

(** [len(s)] *)
Definition len (s : string) : Z := Z.of_nat (String.length s).

(** [s[i]]: panics when [i] is not in [0, len(s)). *)
Definition index (s : string) (i : Z) : outcome ascii :=
  if (i <? 0) || (len s <=? i) then Panic IndexOutOfRange
  else match String.get (Z.to_nat i) s with
       | Some c => Returned c
       | None => Panic IndexOutOfRange
       end.

(** [s[:j]]: panics when [j] is not in [0, len(s)]. *)
Definition slice_to (s : string) (j : Z) : outcome string :=
  if (j <? 0) || (len s <? j) then Panic IndexOutOfRange
  else Returned (String.substring 0 (Z.to_nat j) s).

(** [strings.HasPrefix(s, prefix)] *)
Fixpoint HasPrefix (s prefix : string) {struct prefix} : bool :=
  match prefix, s with
  | EmptyString, _ => true
  | String p prefix', String c s' => Ascii.eqb c p && HasPrefix s' prefix'
  | String _ _, EmptyString => false
  end.

(** [strings.HasSuffix(s, suffix)], used to state properties only. *)
Definition HasSuffix (s suffix : string) : bool :=
  let n := String.length s in
  let k := String.length suffix in
  (k <=? n)%nat && String.eqb (String.substring (n - k) k s) suffix.

(** [strings.Contains(s, substr)] *)
Fixpoint Contains (s substr : string) : bool :=
  HasPrefix s substr ||
  match s with
  | EmptyString => false
  | String _ s' => Contains s' substr
  end.

(** [strings.Join(l, sep)] *)
Fixpoint Join (l : list string) (sep : string) : string :=
  match l with
  | [] => ""
  | [x] => x
  | x :: l' => x +:+ sep +:+ Join l' sep
  end.

End GoString.
Import GoString.

(** ** The host normaliser *)

(** [cleanseHost], lines 194-202.  [fmt.Sprintf("http://%s", host)] is the
    concatenation of ["http://"] and [host]. *)
Definition cleanseHost (host : string) : outcome string :=
  c ←! index host (len host - 1);
  host ←! (if Ascii.eqb c "/" then slice_to host (len host - 1)
           else Returned host);
  if negb (HasPrefix host "http://") && negb (HasPrefix host "https://")
  then Returned ("http://" +:+ host)
  else Returned host.

(** ** Errors

    A Go [error] value.  [Errorf] is the result of [fmt.Errorf] with its
    formatted text; [Wrapped cause msg] is [errors.Wrap(cause, msg)] of
    [github.com/pkg/errors] (the recorded stack trace is left out);
    [JSONError] is an error of [encoding/json]; [External] is any error
    raised by the transport or by reading a response body. *)

Inductive json_error : Type :=
  | SyntaxError
  | UnmarshalTypeError (Value : string) (Type_ : string) (Field : option (string * string)).

Inductive error : Type :=
  | Errorf (msg : string)
  | Wrapped (cause : error) (msg : string)
  | JSONError (e : json_error)
  | External (msg : string).

(** The text of an [UnmarshalTypeError] is the one [encoding/json] prints.
    The text of a [SyntaxError] names the offending byte and its context
    in Go; that detail is not modelled and a fixed text stands for it. *)
Definition json_error_text (e : json_error) : string :=
  match e with
  | SyntaxError => "invalid JSON input"
  | UnmarshalTypeError v t None =>
      "json: cannot unmarshal " +:+ v +:+ " into Go value of type " +:+ t
  | UnmarshalTypeError v t (Some (s, f)) =>
      "json: cannot unmarshal " +:+ v +:+ " into Go struct field " +:+ s +:+ "." +:+ f
        +:+ " of type " +:+ t
  end.

(** The [Error()] method. *)
Fixpoint message (e : error) : string :=
  match e with
  | Errorf msg => msg
  | Wrapped cause msg => msg +:+ ": " +:+ message cause
  | JSONError e => json_error_text e
  | External msg => msg
  end.

(** [errors.Cause]: the innermost error of a chain of wraps. *)
Fixpoint Cause (e : error) : error :=
  match e with
  | Wrapped cause _ => Cause cause
  | _ => e
  end.

(** [errors.Wrap(err, msg)]: nil when [err] is nil. *)
Definition Wrap (err : option error) (msg : string) : option error :=
  match err with
  | None => None
  | Some e => Some (Wrapped e msg)
  end.

(** The double quote character, and a string between double quotes. *)
Definition dquote : ascii := "034"%char.
Definition quoted (s : string) : string := String dquote s +:+ String dquote "".

(** ** The data model *)

(** [RPCError] and [RPCErrors], lines 34-43. *)
Record RPCError : Type := mkRPCError { Kind : string; Error : string }.

Definition RPCErrors : Type := list RPCError.

(** [rpcOptions], lines 45-48. *)
Record rpcOptions : Type := mkOption { Key : string; Value : string }.

(** [MUTEZ], line 17. *)
Definition MUTEZ : Z := 1000000.

(** ** encoding/json, as [json.Unmarshal] uses it on a [*RPCErrors]

    [json.Unmarshal] first scans the whole input for validity
    ([checkValid], the byte-at-a-time state machine of [scanner.go]) and
    then decodes it into the target.  The scanner below is that state
    machine, one [step] per byte; it also builds the value it reads, and
    the decoder then stores that value into a slice of [RPCError]. *)

Module JSON.

Definition code (c : ascii) : Z := Z.of_N (N_of_ascii c).
Definition byte (z : Z) : ascii := ascii_of_N (Z.to_N z).

Definition between (lo hi : Z) (c : ascii) : bool :=
  (lo <=? code c) && (code c <=? hi).

(** [isSpace] *)
Definition is_space (c : ascii) : bool :=
  Ascii.eqb c " " || Ascii.eqb c "009" || Ascii.eqb c "013" || Ascii.eqb c "010".

Definition is_digit (c : ascii) : bool := between 48 57 c.
Definition is_digit19 (c : ascii) : bool := between 49 57 c.

(** The value of a hexadecimal digit, [-1] for another byte. *)
Definition hexval (c : ascii) : Z :=
  if between 48 57 c then code c - 48
  else if between 97 102 c then code c - 87
  else if between 65 70 c then code c - 55
  else -1.

Definition is_hex (c : ascii) : bool := 0 <=? hexval c.

(** The one-letter escapes of a string literal. *)
Definition is_escape (c : ascii) : bool :=
  Ascii.eqb c "b" || Ascii.eqb c "f" || Ascii.eqb c "n" || Ascii.eqb c "r"
  || Ascii.eqb c "t" || Ascii.eqb c "\" || Ascii.eqb c "/" || Ascii.eqb c dquote.

Definition unescape (c : ascii) : ascii :=
  if Ascii.eqb c "b" then "008"
  else if Ascii.eqb c "f" then "012"
  else if Ascii.eqb c "n" then "010"
  else if Ascii.eqb c "r" then "013"
  else if Ascii.eqb c "t" then "009"
  else c.

(** *** UTF-8 *)

(** [utf8.EncodeRune], for a rune that is not a surrogate. *)
Definition encode_rune (r : Z) : string :=
  if r <? 128 then String (byte r) ""
  else if r <? 2048 then
    String (byte (Z.lor 192 (Z.shiftr r 6)))
      (String (byte (Z.lor 128 (Z.land r 63))) "")
  else if r <? 65536 then
    String (byte (Z.lor 224 (Z.shiftr r 12)))
      (String (byte (Z.lor 128 (Z.land (Z.shiftr r 6) 63)))
        (String (byte (Z.lor 128 (Z.land r 63))) ""))
  else
    String (byte (Z.lor 240 (Z.shiftr r 18)))
      (String (byte (Z.lor 128 (Z.land (Z.shiftr r 12) 63)))
        (String (byte (Z.lor 128 (Z.land (Z.shiftr r 6) 63)))
          (String (byte (Z.lor 128 (Z.land r 63))) ""))).

(** [unicode.ReplacementChar], U+FFFD, encoded. *)
Definition replacement : string := encode_rune 65533.

(** The byte ranges [utf8.DecodeRune] accepts. *)
Definition cont (c : ascii) : bool := between 128 191 c.

Definition two_bytes (c0 c1 : ascii) : bool := between 194 223 c0 && cont c1.

Definition three_bytes (c0 c1 c2 : ascii) : bool :=
  ((Ascii.eqb c0 "224" && between 160 191 c1)
   || (between 225 236 c0 && cont c1)
   || (Ascii.eqb c0 "237" && between 128 159 c1)
   || (between 238 239 c0 && cont c1))
  && cont c2.

Definition four_bytes (c0 c1 c2 c3 : ascii) : bool :=
  ((Ascii.eqb c0 "240" && between 144 191 c1)
   || (between 241 243 c0 && cont c1)
   || (Ascii.eqb c0 "244" && between 128 143 c1))
  && cont c2 && cont c3.

(** [getu4] on four hexadecimal digits. *)
Definition u4 (h1 h2 h3 h4 : ascii) : Z :=
  if is_hex h1 && is_hex h2 && is_hex h3 && is_hex h4
  then ((hexval h1 * 16 + hexval h2) * 16 + hexval h3) * 16 + hexval h4
  else -1.

(** [utf16.IsSurrogate] and [utf16.DecodeRune] *)
Definition is_surrogate (r : Z) : bool := (55296 <=? r) && (r <? 57344).

Definition decode_surrogates (r1 r2 : Z) : option Z :=
  if (55296 <=? r1) && (r1 <? 56320) && (56320 <=? r2) && (r2 <? 57344)
  then Some (Z.lor (Z.shiftl (r1 - 55296) 10) (r2 - 56320) + 65536)
  else None.

(** [unquote], on the bytes between the quotes of a string literal the
    scanner has accepted: escapes are replaced, a pair of surrogate
    escapes is one rune, a lone surrogate escape and every byte that does
    not start a well-formed UTF-8 sequence become U+FFFD. *)
Fixpoint unquote (s : string) : string :=
  match s with
  | EmptyString => ""
  | String c s1 =>
    if Ascii.eqb c "\" then
      match s1 with
      | EmptyString => ""
      | String e s2 =>
        if Ascii.eqb e "u" then
          match s2 with
          | String h1 (String h2 (String h3 (String h4 s6))) =>
            let r := u4 h1 h2 h3 h4 in
            if is_surrogate r then
              match s6 with
              | String b (String u (String g1 (String g2 (String g3 (String g4 s12))))) =>
                let r2 := if Ascii.eqb b "\" && Ascii.eqb u "u"
                          then u4 g1 g2 g3 g4 else -1 in
                match decode_surrogates r r2 with
                | Some dec => encode_rune dec +:+ unquote s12
                | None => replacement +:+ unquote s6
                end
              | _ => replacement +:+ unquote s6
              end
            else encode_rune r +:+ unquote s6
          | _ => ""
          end
        else String (unescape e) (unquote s2)
      end
    else if code c <? 128 then String c (unquote s1)
    else
      match s1 with
      | String c1 s2 =>
        if two_bytes c c1 then String c (String c1 (unquote s2))
        else
          match s2 with
          | String c2 s3 =>
            if three_bytes c c1 c2
            then String c (String c1 (String c2 (unquote s3)))
            else
              match s3 with
              | String c3 s4 =>
                if four_bytes c c1 c2 c3
                then String c (String c1 (String c2 (String c3 (unquote s4))))
                else replacement +:+ unquote s1
              | EmptyString => replacement +:+ unquote s1
              end
          | EmptyString => replacement +:+ unquote s1
          end
      | EmptyString => replacement +:+ unquote s1
      end
  end.

(** *** Values and the scanner *)

#[local] Set Warnings "-register-all".

Inductive value : Type :=
  | VNull
  | VBool (b : bool)
  | VNumber
  | VString (s : string)
  | VArray (elements : list value)
  | VObject (fields : list (string * value)).

(** An entry of the scanner's [parseState] stack, with what has been read
    of the array or object so far (last read first).  An object frame
    holds the key whose value is awaited. *)
Inductive frame : Type :=
  | FArray (elements : list value)
  | FObject (fields : list (string * value)) (key : option string).

(** The scanner's [step] function. *)
Inductive mode : Type :=
  | BeginValue
  | BeginValueOrEmpty
  | BeginString
  | BeginStringOrEmpty
  | EndValue
  | EndTop (v : value)
  | InString (raw : string)
  | InStringEsc (raw : string)
  | InStringEscU (raw : string) (more : nat)
  | Neg
  | Zero
  | Digits
  | Dot
  | Dot0
  | Exp
  | ESign
  | E0
  | Lit (rest : string) (v : value).

Definition state : Type := mode * list frame.

Definition maxNestingDepth : Z := 10000.

(** [pushParseState] *)
Definition push (f : frame) (m : mode) (st : list frame) : option state :=
  if Z.of_nat (length (f :: st)) <=? maxNestingDepth then Some (m, f :: st) else None.

(** A value has been read in full: it is the whole input's value when the
    stack is empty, and otherwise the next element of the array, the
    next key of the object, or the value of the pending key. *)
Definition complete (v : value) (st : list frame) : option state :=
  match st with
  | [] => Some (EndTop v, [])
  | FArray els :: st' => Some (EndValue, FArray (v :: els) :: st')
  | FObject fs None :: st' =>
      match v with
      | VString k => Some (EndValue, FObject fs (Some k) :: st')
      | _ => None
      end
  | FObject fs (Some k) :: st' => Some (EndValue, FObject ((k, v) :: fs) None :: st')
  end.

(** [stateBeginValue], after white space *)
Definition begin_value (c : ascii) (st : list frame) : option state :=
  if Ascii.eqb c "{" then push (FObject [] None) BeginStringOrEmpty st
  else if Ascii.eqb c "[" then push (FArray []) BeginValueOrEmpty st
  else if Ascii.eqb c dquote then Some (InString "", st)
  else if Ascii.eqb c "-" then Some (Neg, st)
  else if Ascii.eqb c "0" then Some (Zero, st)
  else if Ascii.eqb c "t" then Some (Lit "rue" (VBool true), st)
  else if Ascii.eqb c "f" then Some (Lit "alse" (VBool false), st)
  else if Ascii.eqb c "n" then Some (Lit "ull" VNull, st)
  else if is_digit19 c then Some (Digits, st)
  else None.

(** [stateEndValue] and [stateEndTop] *)
Definition end_value (c : ascii) (s : state) : option state :=
  match s with
  | (EndTop _, _) => if is_space c then Some s else None
  | (EndValue, st) =>
      if is_space c then Some s
      else
        match st with
        | [] => None
        | FObject fs (Some k) :: st' =>
            if Ascii.eqb c ":" then Some (BeginValue, st) else None
        | FObject fs None :: st' =>
            if Ascii.eqb c "," then Some (BeginString, st)
            else if Ascii.eqb c "}" then complete (VObject (rev fs)) st'
            else None
        | FArray els :: st' =>
            if Ascii.eqb c "," then Some (BeginValue, st)
            else if Ascii.eqb c "]" then complete (VArray (rev els)) st'
            else None
        end
  | _ => None
  end.

(** The end of a number: the byte after it is read as the byte after a
    value. *)
Definition end_number (c : ascii) (st : list frame) : option state :=
  match complete VNumber st with
  | Some s => end_value c s
  | None => None
  end.

(** [state0]: after the integer part of a number *)
Definition state0 (c : ascii) (st : list frame) : option state :=
  if Ascii.eqb c "." then Some (Dot, st)
  else if Ascii.eqb c "e" || Ascii.eqb c "E" then Some (Exp, st)
  else end_number c st.

Definition step (s : state) (c : ascii) : option state :=
  let '(m, st) := s in
  match m with
  | BeginValue => if is_space c then Some s else begin_value c st
  | BeginValueOrEmpty =>
      if is_space c then Some s
      else if Ascii.eqb c "]" then
        match st with
        | FArray els :: st' => complete (VArray (rev els)) st'
        | _ => None
        end
      else begin_value c st
  | BeginString =>
      if is_space c then Some s
      else if Ascii.eqb c dquote then Some (InString "", st)
      else None
  | BeginStringOrEmpty =>
      if is_space c then Some s
      else if Ascii.eqb c "}" then
        match st with
        | FObject fs None :: st' => complete (VObject (rev fs)) st'
        | _ => None
        end
      else if Ascii.eqb c dquote then Some (InString "", st)
      else None
  | EndValue | EndTop _ => end_value c s
  | InString raw =>
      if Ascii.eqb c dquote then complete (VString (unquote raw)) st
      else if Ascii.eqb c "\" then Some (InStringEsc (raw +:+ String c ""), st)
      else if code c <? 32 then None
      else Some (InString (raw +:+ String c ""), st)
  | InStringEsc raw =>
      if is_escape c then Some (InString (raw +:+ String c ""), st)
      else if Ascii.eqb c "u" then Some (InStringEscU (raw +:+ String c "") 3, st)
      else None
  | InStringEscU raw more =>
      if is_hex c then
        match more with
        | O => Some (InString (raw +:+ String c ""), st)
        | S more' => Some (InStringEscU (raw +:+ String c "") more', st)
        end
      else None
  | Neg =>
      if Ascii.eqb c "0" then Some (Zero, st)
      else if is_digit19 c then Some (Digits, st)
      else None
  | Digits => if is_digit c then Some s else state0 c st
  | Zero => state0 c st
  | Dot => if is_digit c then Some (Dot0, st) else None
  | Dot0 =>
      if is_digit c then Some s
      else if Ascii.eqb c "e" || Ascii.eqb c "E" then Some (Exp, st)
      else end_number c st
  | Exp =>
      if Ascii.eqb c "+" || Ascii.eqb c "-" then Some (ESign, st)
      else if is_digit c then Some (E0, st)
      else None
  | ESign => if is_digit c then Some (E0, st) else None
  | E0 => if is_digit c then Some s else end_number c st
  | Lit rest v =>
      match rest with
      | EmptyString => None
      | String x rest' =>
          if Ascii.eqb c x then
            match rest' with
            | EmptyString => complete v st
            | String _ _ => Some (Lit rest' v, st)
            end
          else None
      end
  end.

Fixpoint run (s : state) (data : string) : option state :=
  match data with
  | EmptyString => Some s
  | String c data' =>
      match step s c with
      | Some s' => run s' data'
      | None => None
      end
  end.

(** The scanner's [eof]: a space is fed to end a number at top level. *)
Definition eof (s : state) : option value :=
  match s with
  | (EndTop v, _) => Some v
  | _ =>
      match step s " " with
      | Some (EndTop v, _) => Some v
      | _ => None
      end
  end.

(** The value of a valid input, [None] for an input [checkValid]
    rejects. *)
Definition parse (data : string) : option value :=
  match run (BeginValue, []) data with
  | Some s => eof s
  | None => None
  end.

End JSON.

(** *** Decoding into [RPCErrors] *)

(** [foldName], as far as it decides whether a key is one of the ASCII
    names [kind] and [error]: ASCII letters go to upper case, and the two
    runes outside ASCII whose fold is an ASCII letter (the Kelvin sign
    U+212A and the long s U+017F) go to that letter. *)
Fixpoint foldName (s : string) : string :=
  match s with
  | EmptyString => ""
  | String c s1 =>
    if JSON.between 97 122 c then String (JSON.byte (JSON.code c - 32)) (foldName s1)
    else
      match s1 with
      | String c1 s2 =>
        if Ascii.eqb c "197" && Ascii.eqb c1 "191" then String "S" (foldName s2)
        else
          match s2 with
          | String c2 s3 =>
            if Ascii.eqb c "226" && Ascii.eqb c1 "132" && Ascii.eqb c2 "170"
            then String "K" (foldName s3)
            else String c (foldName s1)
          | EmptyString => String c (foldName s1)
          end
      | EmptyString => String c (foldName s1)
      end
  end.

Inductive field : Type := FieldKind | FieldError.

(** The field of [RPCError] a key of a JSON object names: the one whose
    [json] tag equals the key, also when letters differ in case only. *)
Definition field_of_key (key : string) : option field :=
  if String.eqb (foldName key) "KIND" then Some FieldKind
  else if String.eqb (foldName key) "ERROR" then Some FieldError
  else None.

Definition field_name (f : field) : string :=
  match f with FieldKind => "kind" | FieldError => "error" end.

Definition set_field (f : field) (s : string) (r : RPCError) : RPCError :=
  match f with
  | FieldKind => {| Kind := s; Error := Error r |}
  | FieldError => {| Kind := Kind r; Error := s |}
  end.

(** The name [encoding/json] gives a value that does not fit its target. *)
Definition value_name (v : JSON.value) : string :=
  match v with
  | JSON.VNull => "null"
  | JSON.VBool _ => "bool"
  | JSON.VNumber => "number"
  | JSON.VString _ => "string"
  | JSON.VArray _ => "array"
  | JSON.VObject _ => "object"
  end.

(** [saveError]: the first error is the one reported. *)
Definition saveError (saved : option json_error) (e : json_error) : option json_error :=
  match saved with
  | Some _ => saved
  | None => Some e
  end.

(** One key of an object stored into an [RPCError]: a string sets the
    field the key names, null leaves it, any other value leaves it and
    saves a type error; a key that names no field is skipped. *)
Definition decode_field (acc : RPCError * option json_error) (kv : string * JSON.value)
    : RPCError * option json_error :=
  let '(r, saved) := acc in
  match field_of_key (kv.1) with
  | None => acc
  | Some f =>
      match kv.2 with
      | JSON.VString s => (set_field f s r, saved)
      | JSON.VNull => acc
      | v => (r, saveError saved
                   (UnmarshalTypeError (value_name v) "string" (Some ("RPCError", field_name f))))
      end
  end.

(** One element of the array stored into a fresh [RPCError]. *)
Definition decode_element (saved : option json_error) (v : JSON.value)
    : RPCError * option json_error :=
  let zero := {| Kind := ""; Error := "" |} in
  match v with
  | JSON.VObject fields => foldl decode_field (zero, saved) fields
  | JSON.VNull => (zero, saved)
  | v => (zero, saveError saved (UnmarshalTypeError (value_name v) "gotezos.RPCError" None))
  end.

Fixpoint decode_elements (saved : option json_error) (l : list JSON.value)
    : RPCErrors * option json_error :=
  match l with
  | [] => ([], saved)
  | v :: l' =>
      let '(r, saved) := decode_element saved v in
      let '(rs, saved) := decode_elements saved l' in
      (r :: rs, saved)
  end.

(** [json.Unmarshal(data, &rpcErrors)] with [rpcErrors] the empty slice of
    line 184: the slice after the call and the error returned.  An array
    gives one entry per element, null gives the nil slice, any other value
    is a type error that leaves the slice as it was. *)
Definition Unmarshal (data : string) : RPCErrors * option json_error :=
  match JSON.parse data with
  | None => ([], Some SyntaxError)
  | Some (JSON.VArray l) => decode_elements None l
  | Some JSON.VNull => ([], None)
  | Some v => ([], Some (UnmarshalTypeError (value_name v) "gotezos.RPCErrors" None))
  end.

Definition example_body : string :=
  "[{" +:+ quoted "kind" +:+ ":" +:+ quoted "permanent" +:+ ","
       +:+ quoted "error" +:+ ":" +:+ quoted "boom" +:+ "}]".

(** ** fmt *)

(** The verb [%d] on an [int]: its decimal digits, with a sign when
    negative. *)
Definition format_d (n : Z) : string := pretty n.

(** ** The error classifier *)

(** [rpcErrors[0]] *)
Definition first_entry (rpcErrors : RPCErrors) : outcome RPCError :=
  match rpcErrors !! 0%nat with
  | Some e => Returned e
  | None => Panic IndexOutOfRange
  end.

(** Lines 186-189 of [handleRPCError]: what it does with the slice and the
    error [json.Unmarshal] has left. *)
Definition handleRPCError_decoded (decoded : RPCErrors * option json_error)
    : outcome (option error) :=
  let '(rpcErrors, err) := decoded in
  match err with
  | Some e => Returned (Wrap (Some (JSONError e)) "could not unmarshal rpc error")
  | None =>
      e0 ←! first_entry rpcErrors;
      Returned (Some (Errorf ("rpc error (" +:+ Kind e0 +:+ "): " +:+ Error e0)))
  end.

(** [handleRPCError], lines 182-192. *)
Definition handleRPCError (resp : string) : outcome (option error) :=
  if Contains resp "error" then handleRPCError_decoded (Unmarshal resp)
  else Returned None.

(** ** net/url: query strings *)

Module url.

(** [url.Values]: a map from a key to the list of its values. *)
Abbreviation Values := (gmap string (list string)).

(** [Values.Add]: [v[key] = append(v[key], value)] *)
Definition Add (key value : string) (v : Values) : Values :=
  <[key := (v !!! key) ++ [value]]> v.

Definition upperhex (n : Z) : ascii :=
  if n <? 10 then JSON.byte (48 + n) else JSON.byte (55 + n).

(** [shouldEscape] in the mode [encodeQueryComponent] *)
Definition shouldEscape (c : ascii) : bool :=
  if JSON.between 97 122 c || JSON.between 65 90 c || JSON.between 48 57 c then false
  else if Ascii.eqb c "-" || Ascii.eqb c "_" || Ascii.eqb c "." || Ascii.eqb c "~"
  then false
  else true.

(** [QueryEscape] *)
Fixpoint QueryEscape (s : string) : string :=
  match s with
  | EmptyString => ""
  | String c s' =>
      if Ascii.eqb c " " then String "+" (QueryEscape s')
      else if shouldEscape c then
        String "%" (String (upperhex (Z.shiftr (JSON.code c) 4))
          (String (upperhex (Z.land (JSON.code c) 15)) (QueryEscape s')))
      else String c (QueryEscape s')
  end.

(** [QueryUnescape]: [None] for a [%] that two hexadecimal digits do not
    follow. *)
Fixpoint QueryUnescape (s : string) : option string :=
  match s with
  | EmptyString => Some ""
  | String c s1 =>
      if Ascii.eqb c "%" then
        match s1 with
        | String h1 (String h2 s3) =>
            if JSON.is_hex h1 && JSON.is_hex h2 then
              String (JSON.byte (JSON.hexval h1 * 16 + JSON.hexval h2)) <$> QueryUnescape s3
            else None
        | _ => None
        end
      else if Ascii.eqb c "+" then String " " <$> QueryUnescape s1
      else String c <$> QueryUnescape s1
  end.

(** The pieces of [s] between the occurrences of [sep], [cur] being the
    piece under way. *)
Fixpoint split_go (sep : ascii) (cur s : string) : list string :=
  match s with
  | EmptyString => [cur]
  | String c s' =>
      if Ascii.eqb c sep then cur :: split_go sep "" s'
      else split_go sep (cur +:+ String c "") s'
  end.

(** [strings.Cut(s, "=")]: what precedes the first [=], and what follows
    it. *)
Fixpoint cut_eq (s : string) : string * string :=
  match s with
  | EmptyString => ("", "")
  | String c s' =>
      if Ascii.eqb c "=" then ("", s')
      else let '(k, v) := cut_eq s' in (String c k, v)
  end.

(** One [&]-separated piece of a query, in the loop of [parseQuery] (as
    of Go 1.17): an empty piece, one with a semicolon and one that does
    not unescape are dropped. *)
Definition parse_piece (v : Values) (piece : string) : Values :=
  if Contains piece ";" then v
  else if String.eqb piece "" then v
  else
    let '(key, value) := cut_eq piece in
    match QueryUnescape key, QueryUnescape value with
    | Some key, Some value => Add key value v
    | _, _ => v
    end.

(** [ParseQuery], its error dropped as [URL.Query] drops it. *)
Definition ParseQuery (query : string) : Values :=
  foldl parse_piece ∅ (split_go "&" "" query).

(** The pairs [Encode] writes, in the order it writes them: the keys in
    ascending order ([sort.Strings]), the values of a key in the order
    of its list. *)
Definition sorted_keys (v : Values) : list string :=
  merge_sort String.le (map fst (map_to_list v)).

Definition pairs_of (v : Values) (key : string) : list (string * string) :=
  map (λ value, (key, value)) (v !!! key).

Definition encoded_pairs (v : Values) : list (string * string) :=
  flat_map (pairs_of v) (sorted_keys v).

Definition encode_pair (kv : string * string) : string :=
  QueryEscape kv.1 +:+ "=" +:+ QueryEscape kv.2.

(** [Values.Encode] *)
Definition Encode (v : Values) : string :=
  Join (map encode_pair (encoded_pairs v)) "&".

(** [url.URL], as far as this file reads it: what precedes the query,
    and the query. *)
Record URL : Type := mkURL { Location : string; RawQuery : string }.

(** [URL.Query] *)
Definition Query (u : URL) : Values := ParseQuery (RawQuery u).

End url.

(** ** net/http *)

(** A response body as [ioutil.ReadAll] consumes it: chunks of bytes, up
    to the end of the stream or to a read error. *)
Inductive reader : Type :=
  | EOF
  | Chunk (data : string) (rest : reader)
  | ReadFails (e : error).

(** The loop of [ioutil.ReadAll]: the bytes read, and the error that
    stopped the reading if one did. *)
Fixpoint read_all (r : reader) : string * option error :=
  match r with
  | EOF => ("", None)
  | Chunk data rest => let '(s, e) := read_all rest in (data +:+ s, e)
  | ReadFails e => ("", Some e)
  end.

(** [ioutil.ReadAll], given an [io.Reader] that may be nil ([None]): the
    call of [Read] on a nil reader is a nil dereference. *)
Definition ReadAll (r : option reader) : outcome (string * option error) :=
  match r with
  | None => Panic NilDereference
  | Some r => Returned (read_all r)
  end.

Record Request : Type :=
  mkRequest { Method : string; URL : url.URL; Payload : string }.

(** [http.Response], as far as this file reads it.  [Body] is an
    [io.ReadCloser]: [None] is the nil interface value. *)
Record Response : Type := mkResponse { StatusCode : Z; Body : option reader }.

Definition StatusOK : Z := 200.

(** The interface [client], lines 50-53.  A client is a value of a type
    [C]; a call returns the client as the call leaves it.  The calls are
    those that return: a client whose [Do] itself panics is outside this
    model. *)
Class client (C : Type) : Type := {
  Do : C → Request → (option Response * option error) * C;
  CloseIdleConnections : C → C
}.

(** ** The query builder *)

(** The options as pairs, in the order given. *)
Definition option_pairs (opts : list rpcOptions) : list (string * string) :=
  map (λ opt, (Key opt, Value opt)) opts.

(** The loop of lines 175-177. *)
Definition add_options (q : url.Values) (opts : list rpcOptions) : url.Values :=
  foldl (λ q opt, url.Add (Key opt) (Value opt) q) q opts.

(** [constructQueryParams], lines 173-180: the request after the call. *)
Definition constructQueryParams (req : Request) (opts : list rpcOptions) : Request :=
  let q := add_options (url.Query (URL req)) opts in
  {| Method := Method req;
     URL := {| url.Location := url.Location (URL req); url.RawQuery := url.Encode q |};
     Payload := Payload req |}.

(** ** The client *)

Section Core.

Context {C : Type} `{!client C}.

(** The struct [Constants], and the struct [Block] with its field
    [Hash], are declared in other files of the package. *)
Variable Constants : Type.
Variable Block : Type.
Variable Hash : Block → string.

(** The struct [GoTezos], lines 24-28.  [networkConstants] is a pointer:
    [None] is nil. *)
Record GoTezos : Type := mkGoTezos {
  gt_client : C;
  networkConstants : option Constants;
  host : string
}.

Definition with_client (t : GoTezos) (c : C) : GoTezos :=
  {| gt_client := c; networkConstants := networkConstants t; host := host t |}.

(** [SetClient], lines 99-101, and [SetConstants], lines 111-113. *)
Definition SetClient (t : GoTezos) (c : C) : GoTezos := with_client t c.


(** [do], lines 148-171: the bytes and the error returned, and the
    client as the call leaves it.  A response that is nil although the
    transport reported no error is dereferenced at line 154, and so is a
    body that is nil, by [ioutil.ReadAll]. *)
Definition do (t : GoTezos) (req : Request) : outcome ((string * option error) * GoTezos) :=
  let '(resp, err, c) := Do (gt_client t) req in
  let t := with_client t c in
  match err with
  | Some _ => Returned (("", Wrap err "failed to complete request"), t)
  | None =>
    match resp with
    | None => Panic NilDereference
    | Some resp =>
      read ←! ReadAll (Body resp);
      let '(byts, err) := read in
      match err with
      | Some _ => Returned ((byts, Wrap err "could not read response body"), t)
      | None =>
        if negb (StatusCode resp =? StatusOK) then
          Returned ((byts, Some (Errorf ("response returned code " +:+ format_d (StatusCode resp)
                                           +:+ " with body " +:+ byts))), t)
        else
          err ←! handleRPCError byts;
          match err with
          | Some _ => Returned ((byts, err), t)
          | None => Returned ((byts, None), with_client t (CloseIdleConnections (gt_client t)))
          end
      end
    end
  end.

(** The methods [Head] and [Constants] of [GoTezos] are defined in other
    files of the package: each is given the client and returns its two
    results, and the transport as its requests leave it.  [http_Client]
    is the [&http.Client{...}] of lines 65-73. *)
Variable Head : GoTezos → (option Block * option error) * C.
Variable GetConstants : GoTezos → string → (option Constants * option error) * C.
Variable http_Client : C.

Definition bootstrap_message : string :=
  "could not initialize library with network constants".

(** [New], lines 63-89.  The pointer returned is [None] when nil. *)
Definition New (host : string) : outcome (option GoTezos * option error) :=
  h ←! cleanseHost host;
  let gt := {| gt_client := http_Client; networkConstants := None; host := h |} in
  let '(block, err, c) := Head gt in
  let gt := with_client gt c in
  match err with
  | Some _ => Returned (Some gt, Wrap err bootstrap_message)
  | None =>
    match block with
    | None => Panic NilDereference
    | Some block =>
      let '(constants, err, c) := GetConstants gt (Hash block) in
      let gt := with_client gt c in
      match err with
      | Some _ => Returned (Some gt, Wrap err bootstrap_message)
      | None =>
          Returned (Some {| gt_client := c; networkConstants := constants; host := h |},
                    None)
      end
    end
  end.

(** The head fetch fails with [cause] on the client built for the
    normalised host [h], and leaves the transport as [c]. *)
Definition head_fails (h : string) (cause : error) (c : C) : Prop :=
  ∃ block, Head (mkGoTezos http_Client None h) = (block, Some cause, c).

(** The head fetch succeeds and the constants fetch fails with
    [cause]. *)
Definition constants_fails (h : string) (cause : error) (c : C) : Prop :=
  ∃ block c1 constants,
    Head (mkGoTezos http_Client None h) = (Some block, None, c1)
    ∧ GetConstants (mkGoTezos c1 None h) (Hash block) = (constants, Some cause, c).

End Core.

Arguments mkGoTezos {C Constants} _ _ _.
Arguments gt_client {C Constants} _.
Arguments networkConstants {C Constants} _.
Arguments host {C Constants} _.

(** ** A test double for the transport

    It answers every request with the same reply and records the requests
    it was given and how often its idle connections were closed. *)

Record mock : Type := mkMock {
  reply : option Response * option error;
  requests : list Request;
  idle_closed : nat
}.

#[export] Instance mock_client : client mock := {
  Do m req := (reply m, {| reply := reply m; requests := req :: requests m;
                           idle_closed := idle_closed m |});
  CloseIdleConnections m := {| reply := reply m; requests := requests m;
                               idle_closed := S (idle_closed m) |}
}.

(** ** Definitions used to state the properties *)

(** The last byte of a string, and the string without it. *)
Fixpoint last_byte (s : string) : option ascii :=
  match s with
  | EmptyString => None
  | String c EmptyString => Some c
  | String _ s' => last_byte s'
  end.

Fixpoint drop_last (s : string) : string :=
  match s with
  | EmptyString => ""
  | String c EmptyString => ""
  | String c s' => String c (drop_last s')
  end.

(** Lines 198-201: the scheme is added to a host that has none. *)
Definition with_scheme (h : string) : string :=
  if negb (HasPrefix h "http://") && negb (HasPrefix h "https://")
  then "http://" +:+ h else h.

Definition has_scheme (h : string) : bool :=
  HasPrefix h "http://" || HasPrefix h "https://".

(** The client of the examples: a test double that answers with [r]. *)
Definition mock_GoTezos (r : option Response * option error) : GoTezos (C:=mock) unit :=
  mkGoTezos (mkMock r [] 0) None "http://node.example".

Definition head_request : Request :=
  {| Method := "GET"; URL := url.mkURL "http://node.example/chains/main/blocks/head" "";
     Payload := "" |}.

Definition answer (code : Z) (body : string) : option Response * option error :=
  (Some {| StatusCode := code; Body := Some (Chunk body EOF) |}, None).

Definition block_body : string :=
  "{" +:+ quoted "hash" +:+ ":" +:+ quoted "BLockGenesisGenesis" +:+ "}".

(** A node that is down, and one that serves its head but not its
    constants; a block is its hash here. *)
Definition refused : error := External "dial tcp: connection refused".

Definition head_down (gt : GoTezos (C:=mock) unit) : (option string * option error) * mock :=
  (None, Some refused, gt_client gt).


Definition constants_down (gt : GoTezos (C:=mock) unit) (hash : string)
    : (option unit * option error) * mock :=
  (None, Some refused, gt_client gt).

Definition idle : mock := mkMock (None, Some refused) [] 0.

(** The pairs of a list that have the key [k]. *)
Definition with_key (k : string) (l : list (string * string)) : list (string * string) :=
  filter (λ p, p.1 = k) l.

Definition plain_request : Request :=
  {| Method := "GET"; URL := url.mkURL "http://node.example/chains/main/blocks" "";
     Payload := "" |}.

(** ** Scanner states, for the inputs that decode into no entry

    [json.Unmarshal] leaves the slice empty without an error on two kinds
    of input only: [null] and the empty array, each with white space
    around (and inside the brackets).  The scanner states met while such
    an input is read are the [clean] ones; every other state the scanner
    can be led to from them is [doomed]: the value it is reading is
    neither [null] nor the empty array, and will not become one. *)

(** The values that decode into an empty slice with no error. *)
Definition empty_value (v : JSON.value) : bool :=
  match v with
  | JSON.VNull => true
  | JSON.VArray [] => true
  | _ => false
  end.

(** The byte [c] is one of the bytes of [s]. *)
Fixpoint occurs (c : ascii) (s : string) : bool :=
  match s with
  | EmptyString => false
  | String x s' => Ascii.eqb x c || occurs c s'
  end.

Definition clean (s : JSON.state) : bool :=
  match s with
  | (JSON.BeginValue, []) => true
  | (JSON.Lit rest JSON.VNull, []) => negb (occurs "e" rest)
  | (JSON.BeginValueOrEmpty, [JSON.FArray []]) => true
  | (JSON.EndTop v, []) => empty_value v
  | _ => false
  end.

(** A stack other than the empty one and the one of a top-level array
    with no element yet. *)
Definition deep (st : list JSON.frame) : bool :=
  match st with
  | [] => false
  | [JSON.FArray []] => false
  | _ => true
  end.

Definition doomed (s : JSON.state) : bool :=
  let '(m, st) := s in
  match m with
  | JSON.EndTop v => negb (empty_value v)
  | _ =>
      deep st ||
      match st, m with
      | [], (JSON.BeginValue | JSON.BeginValueOrEmpty) => false
      | [], JSON.Lit _ v => negb (empty_value v)
      | [], _ => true
      | _, (JSON.BeginValueOrEmpty | JSON.EndValue) => false
      | _, _ => true
      end
  end.

(** ** The client facade *)

Section Facade.

Context {C : Type} `{!client C}.
Variable Constants : Type.

(** [url.Parse], as [http.NewRequest] calls it on the string it is given:
    the URL, or the error that rejects the string. *)
Variable Parse : string → url.URL + error.

(** [http.NewRequest(method, url, body)] for the three methods this file
    passes, which are valid: the request, or the error of [url.Parse]. *)
Definition NewRequest (method urlStr body : string) : option Request * option error :=
  match Parse urlStr with
  | inl u => (Some {| Method := method; URL := u; Payload := body |}, None)
  | inr e => (None, Some e)
  end.

Definition MethodGet : string := "GET".
Definition MethodPost : string := "POST".
Definition MethodDelete : string := "DELETE".

(** [post], lines 115-124.  [fmt.Sprintf("%s%s", t.host, path)] is the
    concatenation of the host and the path. *)
Definition post (t : GoTezos (C:=C) Constants) (path body : string) (opts : list rpcOptions)
    : outcome ((string * option error) * GoTezos (C:=C) Constants) :=
  let '(req, err) := NewRequest MethodPost (host t +:+ path) body in
  match err with
  | Some _ => Returned (("", Wrap err "failed to construct request"), t)
  | None =>
    match req with
    | None => Panic NilDereference
    | Some req => do Constants t (constructQueryParams req opts)
    end
  end.

(** [get], lines 126-135. *)
Definition get (t : GoTezos (C:=C) Constants) (path : string) (opts : list rpcOptions)
    : outcome ((string * option error) * GoTezos (C:=C) Constants) :=
  let '(req, err) := NewRequest MethodGet (host t +:+ path) "" in
  match err with
  | Some _ => Returned (("", Wrap err "failed to construct request"), t)
  | None =>
    match req with
    | None => Panic NilDereference
    | Some req => do Constants t (constructQueryParams req opts)
    end
  end.

(** [delete], lines 137-146. *)
Definition delete (t : GoTezos (C:=C) Constants) (path : string) (opts : list rpcOptions)
    : outcome ((string * option error) * GoTezos (C:=C) Constants) :=
  let '(req, err) := NewRequest MethodDelete (host t +:+ path) "" in
  match err with
  | Some _ => Returned (("", Wrap err "failed to construct request"), t)
  | None =>
    match req with
    | None => Panic NilDereference
    | Some req => do Constants t (constructQueryParams req opts)
    end
  end.

End Facade.

(** ** Definitions used to state the further properties *)

(** Every byte of [s] satisfies [P]. *)
Fixpoint all_chars (P : ascii → bool) (s : string) : bool :=
  match s with
  | EmptyString => true
  | String c s' => P c && all_chars P s'
  end.

(** The bytes [QueryEscape] writes: the unreserved ones, [%] and [+]. *)
Definition escaped_char (c : ascii) : bool :=
  negb (url.shouldEscape c) || Ascii.eqb c "%" || Ascii.eqb c "+".

(** The bytes of an encoded query: those, [=] and [&]. *)
Definition query_char (c : ascii) : bool :=
  escaped_char c || Ascii.eqb c "=" || Ascii.eqb c "&".

(** Percent-encoding of a query component, byte by byte: a letter, a
    digit, [-], [_], [.] and [~] stand for themselves, a space is written
    [+], and any other byte is written [%] followed by the two upper-case
    hexadecimal digits of its value. *)
Definition unreserved (c : ascii) : bool :=
  occurs c "ABCDEFGHIJKLMNOPQRSTUVWXYZabcdefghijklmnopqrstuvwxyz0123456789-_.~".

Definition hex_digit (n : nat) : ascii :=
  match String.get n "0123456789ABCDEF" with
  | Some d => d
  | None => "0"%char
  end.

Definition percent_byte (c : ascii) : string :=
  if unreserved c then String c ""
  else if Ascii.eqb c " " then "+"
  else String "%" (String (hex_digit (nat_of_ascii c / 16))
                     (String (hex_digit (nat_of_ascii c mod 16)) "")).

Fixpoint percent_encode (s : string) : string :=
  match s with
  | EmptyString => ""
  | String c s' => percent_byte c +:+ percent_encode s'
  end.

(** One pair of an encoded query. *)
Definition percent_pair (kv : string * string) : string :=
  percent_encode kv.1 +:+ "=" +:+ percent_encode kv.2.

(** The bytes of a query in that encoding. *)
Definition query_byte (c : ascii) : bool :=
  unreserved c || occurs c "%+=&".

(** No key of the query has an empty list of values. *)
Definition no_empty_values (v : url.Values) : Prop :=
  ∀ key values, v !! key = Some values → values ≠ [].

(** [Values.Add] for each pair of a list, in order. *)
Definition add_pairs (v : url.Values) (l : list (string * string)) : url.Values :=
  foldl (λ v p, url.Add p.1 p.2 v) v l.

(** A byte a JSON string literal holds as it is: printable ASCII other
    than the double quote and the backslash. *)
Definition plain_char (c : ascii) : bool :=
  (32 <=? JSON.code c) && (JSON.code c <? 128)
  && negb (Ascii.eqb c dquote) && negb (Ascii.eqb c "\").

Definition plain_entry (e : RPCError) : bool :=
  all_chars plain_char (Kind e) && all_chars plain_char (Error e).

(** The error payload of the node for a list of entries: a JSON array of
    objects with the keys [kind] and [error], without white space. *)
Definition render_entry (e : RPCError) : string :=
  "{" +:+ quoted "kind" +:+ ":" +:+ quoted (Kind e) +:+ ","
      +:+ quoted "error" +:+ ":" +:+ quoted (Error e) +:+ "}".

Definition render_entries (l : RPCErrors) : string :=
  "[" +:+ Join (map render_entry l) "," +:+ "]".

(** The value the scanner reads from a rendered entry. *)
Definition entry_value (e : RPCError) : JSON.value :=
  JSON.VObject [("kind", JSON.VString (Kind e)); ("error", JSON.VString (Error e))].

(** A stand-in for [url.Parse] in the examples: a string with a space is
    rejected, any other string is a location without a query. *)
Definition example_Parse (s : string) : url.URL + error :=
  if Contains s " " then inr (External "parse: invalid character in URL")
  else inl (url.mkURL s "").

(** A response cut short: the status line and a part of the body came. *)
Definition truncated : option Response * option error :=
  (Some {| StatusCode := 502;
           Body := Some (Chunk "<html>Bad Gate" (ReadFails (External "unexpected EOF"))) |}, None).

(** A success payload that mentions the word error. *)
Definition object_body : string :=
  "{" +:+ quoted "message" +:+ ":" +:+ quoted "no error" +:+ "}".

(** * Properties *)

#[local] Arguments String.append !_ _ / : simpl nomatch.

(** ** Examples *)

Example cleanseHost_plain : cleanseHost "node.example:8732" = Returned "http://node.example:8732".
Proof. reflexivity. Qed.

Example cleanseHost_slash : cleanseHost "https://node.example/" = Returned "https://node.example".
Proof. reflexivity. Qed.

Example cleanseHost_empty : cleanseHost "" = Panic IndexOutOfRange.
Proof. reflexivity. Qed.

Example Unmarshal_example :
  Unmarshal example_body = ([{| Kind := "permanent"; Error := "boom" |}], None).
Proof. vm_compute. reflexivity. Qed.

Example handleRPCError_example :
  handleRPCError example_body = Returned (Some (Errorf "rpc error (permanent): boom")).
Proof. vm_compute. reflexivity. Qed.

Example constructQueryParams_example :
  url.RawQuery (URL (constructQueryParams
    {| Method := "GET"; URL := url.mkURL "http://node/chains" ""; Payload := "" |}
    [mkOption "b" "2 3"; mkOption "a" "1"; mkOption "b" "x/y"]))
  = "a=1&b=2+3&b=x%2Fy".
Proof. vm_compute. reflexivity. Qed.

(** The scheme alone is not a host: its last slash is removed before the
    scheme is looked for. *)
Example cleanseHost_bare_scheme : cleanseHost "https://" = Returned "http://https:/".
Proof. reflexivity. Qed.

Example Unmarshal_null : Unmarshal "null" = ([], None).
Proof. vm_compute. reflexivity. Qed.

Example Unmarshal_empty_array : Unmarshal " [ ] " = ([], None).
Proof. vm_compute. reflexivity. Qed.

Example Unmarshal_not_json : Unmarshal "error" = ([], Some SyntaxError).
Proof. vm_compute. reflexivity. Qed.

Example Unmarshal_object :
  Unmarshal ("{" +:+ quoted "error" +:+ ":" +:+ quoted "boom" +:+ "}")
  = ([], Some (UnmarshalTypeError "object" "gotezos.RPCErrors" None)).
Proof. vm_compute. reflexivity. Qed.

Example Unmarshal_number_field :
  Unmarshal ("[{" +:+ quoted "kind" +:+ ":1," +:+ quoted "error" +:+ ":" +:+ quoted "boom"
             +:+ "}]")
  = ([{| Kind := ""; Error := "boom" |}],
     Some (UnmarshalTypeError "number" "string" (Some ("RPCError", "kind")))).
Proof. vm_compute. reflexivity. Qed.

(** Keys are matched without regard to case, and a missing key leaves the
    field empty; null is an entry with both fields empty. *)
Example Unmarshal_folded_keys :
  Unmarshal ("[ {" +:+ quoted "Kind" +:+ " : " +:+ quoted "temporary" +:+ "} , null ]")
  = ([{| Kind := "temporary"; Error := "" |}; {| Kind := ""; Error := "" |}], None).
Proof. vm_compute. reflexivity. Qed.

(** A key written with an escape decodes like the plain key, but the text
    [error] is not in the body and [handleRPCError] does not look
    further. *)
Example handleRPCError_escaped_key :
  let body := "[{" +:+ quoted "kind" +:+ ":" +:+ quoted "permanent" +:+ ","
                   +:+ quoted "\u0065rror" +:+ ":" +:+ quoted "boom" +:+ "}]" in
  Unmarshal body = ([{| Kind := "permanent"; Error := "boom" |}], None)
  ∧ handleRPCError body = Returned None.
Proof. vm_compute. split; reflexivity. Qed.

(** ** Strings *)

Section StringFacts.

Implicit Types s p a b : string.
Implicit Types c : ascii.

Lemma app_empty_r s : s +:+ "" = s.
Proof. induction s; simpl; congruence. Qed.

Lemma app_assoc' a b s : (a +:+ b) +:+ s = a +:+ (b +:+ s).
Proof. induction a; simpl; congruence. Qed.

Lemma app_length a b : String.length (a +:+ b) = (String.length a + String.length b)%nat.
Proof. induction a; simpl; congruence. Qed.

Lemma last_byte_snoc a c : last_byte (a +:+ String c "") = Some c.
Proof.
  induction a as [|x a IH]; simpl; [done|].
  destruct (a +:+ String c "") eqn:E; [|done].
  by destruct a.
Qed.

Lemma drop_last_snoc a c : drop_last (a +:+ String c "") = a.
Proof.
  induction a as [|x a IH]; simpl; [done|].
  destruct (a +:+ String c "") eqn:E.
  - by destruct a.
  - by rewrite IH.
Qed.

Lemma snoc_last s c : last_byte s = Some c → s = drop_last s +:+ String c "".
Proof.
  induction s as [|x s IH]; simpl; [done|].
  destruct s as [|y s]; [by intros [= ->]|].
  intros E. simpl. f_equal. by apply IH.
Qed.

Lemma last_byte_None s : last_byte s = None ↔ s = "".
Proof.
  split; [|by intros ->].
  induction s as [|x s IH]; [done|]. simpl. destruct s; [done|].
  intros E. by specialize (IH E).
Qed.

Lemma last_byte_app a b : b ≠ "" → last_byte (a +:+ b) = last_byte b.
Proof.
  intros Hb. induction a as [|x a IH]; simpl; [done|].
  destruct (a +:+ b) eqn:E; [|done].
  destruct a; simpl in E; congruence.
Qed.

Lemma get_last s : String.get (String.length s - 1) s = last_byte s.
Proof.
  induction s as [|x s IH]; [done|].
  destruct s as [|y s]; [done|].
  simpl in *. rewrite Nat.sub_0_r in IH. exact IH.
Qed.

Lemma substring_drop_last s : String.substring 0 (String.length s - 1) s = drop_last s.
Proof.
  induction s as [|x s IH]; [done|].
  destruct s as [|y s]; [done|].
  simpl in *. rewrite Nat.sub_0_r in IH. by rewrite IH.
Qed.

Lemma HasPrefix_app p s : HasPrefix (p +:+ s) p = true.
Proof. induction p; simpl; [done|]. by rewrite Ascii.eqb_refl. Qed.

Lemma HasPrefix_spec s p : HasPrefix s p = true ↔ ∃ r, s = p +:+ r.
Proof.
  split.
  - revert s. induction p as [|x p IH]; intros s; simpl; [by eexists|].
    destruct s as [|y s]; [done|].
    intros [->%Ascii.eqb_eq [r ->]%IH]%andb_true_iff. by exists r.
  - intros [r ->]. apply HasPrefix_app.
Qed.

Lemma HasPrefix_snoc s p c :
  HasPrefix s p = true → HasPrefix (s +:+ String c "") p = true.
Proof.
  intros [r ->]%HasPrefix_spec. rewrite app_assoc'. apply HasPrefix_app.
Qed.

Lemma substring_all s : String.substring 0 (String.length s) s = s.
Proof. induction s; simpl; congruence. Qed.

Lemma substring_skip a b n :
  String.substring (String.length a) n (a +:+ b) = String.substring 0 n b.
Proof. induction a; simpl; [done|]. done. Qed.

Lemma substring_split s n :
  (n ≤ String.length s)%nat →
  s = String.substring 0 n s +:+ String.substring n (String.length s - n) s.
Proof.
  revert n. induction s as [|x s IH]; intros [|n] Hn; simpl in *; try lia.
  - done.
  - by rewrite substring_all.
  - f_equal. apply IH. lia.
Qed.

Lemma HasSuffix_spec s p : HasSuffix s p = true ↔ ∃ a, s = a +:+ p.
Proof.
  unfold HasSuffix. rewrite andb_true_iff, Nat.leb_le, String.eqb_eq. split.
  - intros [Hle E]. eexists.
    rewrite (substring_split s (String.length s - String.length p)) at 1 by lia.
    f_equal. rewrite <- E at 3. f_equal. lia.
  - intros [a ->]. rewrite app_length. split; [lia|].
    replace (String.length a + String.length p - String.length p)%nat
      with (String.length a) by lia.
    by rewrite substring_skip, substring_all.
Qed.

Lemma HasSuffix_slash s : HasSuffix s "/" = true ↔ last_byte s = Some "/"%char.
Proof.
  rewrite HasSuffix_spec. split.
  - intros [a ->]. apply last_byte_snoc.
  - intros E. eexists. by apply snoc_last.
Qed.

End StringFacts.

(** ** The host normaliser *)

Section CleanseHost.

Implicit Types host h : string.

Lemma index_last host :
  index host (len host - 1) =
  match last_byte host with
  | Some c => Returned c
  | None => Panic IndexOutOfRange
  end.
Proof.
  unfold index, len. destruct host as [|x host]; [done|].
  assert (Hn : Z.to_nat (Z.of_nat (String.length (String x host)) - 1)
               = (String.length (String x host) - 1)%nat) by lia.
  rewrite Hn, get_last. clear Hn.
  assert (1 ≤ String.length (String x host))%nat by (simpl; lia).
  destruct (Z.ltb_spec (Z.of_nat (String.length (String x host)) - 1) 0); [lia|].
  destruct (Z.leb_spec (Z.of_nat (String.length (String x host)))
              (Z.of_nat (String.length (String x host)) - 1)); [lia|].
  cbv [orb]. destruct (last_byte (String x host)) eqn:E; [done|].
  by apply last_byte_None in E.
Qed.

Lemma slice_to_last host :
  host ≠ "" → slice_to host (len host - 1) = Returned (drop_last host).
Proof.
  intros Hne. unfold slice_to, len.
  assert (1 ≤ String.length host)%nat by (destruct host; simpl; [done|lia]).
  destruct (Z.ltb_spec (Z.of_nat (String.length host) - 1) 0); [lia|].
  destruct (Z.ltb_spec (Z.of_nat (String.length host)) (Z.of_nat (String.length host) - 1)); [lia|].
  simpl. f_equal. rewrite <- substring_drop_last. f_equal. lia.
Qed.

(** What [cleanseHost] computes, on the last byte of its argument. *)
Lemma cleanseHost_unfold host :
  cleanseHost host =
  match last_byte host with
  | None => Panic IndexOutOfRange
  | Some c => Returned (with_scheme (if Ascii.eqb c "/" then drop_last host else host))
  end.
Proof.
  unfold cleanseHost. rewrite index_last.
  destruct (last_byte host) as [c|] eqn:E; [|done].
  assert (host ≠ "") by (intros ->; done).
  cbv [obind]. destruct (Ascii.eqb c "/").
  - rewrite slice_to_last by done. unfold with_scheme. by case_match.
  - unfold with_scheme. by case_match.
Qed.

Lemma cleanseHost_snoc h c :
  cleanseHost (h +:+ String c "") =
  Returned (with_scheme (if Ascii.eqb c "/" then h else h +:+ String c "")).
Proof. by rewrite cleanseHost_unfold, last_byte_snoc, drop_last_snoc. Qed.

Lemma with_scheme_has_scheme h : has_scheme (with_scheme h) = true.
Proof.
  unfold with_scheme, has_scheme.
  destruct (HasPrefix h "http://") eqn:E1; cbn [negb andb]; [by rewrite E1|].
  destruct (HasPrefix h "https://") eqn:E2; cbn [negb andb]; [by rewrite E1, E2|].
  by rewrite HasPrefix_app.
Qed.

Lemma with_scheme_last h : h ≠ "" → last_byte (with_scheme h) = last_byte h.
Proof.
  intros Hne. unfold with_scheme. case_match; [|done]. by apply last_byte_app.
Qed.

Lemma cleanseHost_has_scheme host h : cleanseHost host = Returned h → has_scheme h = true.
Proof.
  rewrite cleanseHost_unfold. destruct (last_byte host); [|done].
  intros [= <-]. apply with_scheme_has_scheme.
Qed.

End CleanseHost.

Section CleanseHostClaims.

Implicit Types host h : string.

Lemma with_scheme_id h : has_scheme h = true → with_scheme h = h.
Proof.
  unfold has_scheme, with_scheme. intros [->| ->]%orb_true_iff; [done|].
  by rewrite andb_false_r.
Qed.

Lemma with_scheme_add h : has_scheme h = false → with_scheme h = "http://" +:+ h.
Proof. unfold has_scheme, with_scheme. by intros [-> ->]%orb_false_iff. Qed.

Lemma snoc_inj a b c : a +:+ String c "" = b +:+ String c "" → a = b.
Proof. intros E. by rewrite <- (drop_last_snoc a c), E, drop_last_snoc. Qed.

Lemma HasSuffix_false_slash s c :
  last_byte s = Some c → c ≠ "/"%char → HasSuffix s "/" = false.
Proof.
  intros E Hc. apply not_true_is_false. rewrite HasSuffix_slash. congruence.
Qed.

Lemma HasSuffix_two_slashes h : HasSuffix (h +:+ "/") "//" = HasSuffix h "/".
Proof.
  apply eq_true_iff_eq. rewrite !HasSuffix_spec. split.
  - intros [a E]. exists a. change "//" with ("/" +:+ "/") in E.
    rewrite <- app_assoc' in E. by apply snoc_inj in E.
  - intros [a ->]. exists a. by rewrite app_assoc'.
Qed.

End CleanseHostClaims.

(** C6: a non-empty host with no scheme and no trailing slash is prefixed
    with [http://]; a host with a trailing slash loses exactly that slash,
    and the scheme test is made on what is left; a host that is a scheme
    [http://] or [https://] followed by at least one byte keeps that scheme,
    and what follows it is kept but for one trailing slash. *)
Theorem cleanseHost_normalizes :
  (∀ h : string, h ≠ "" → HasSuffix h "/" = false → has_scheme h = false →
     cleanseHost h = Returned ("http://" +:+ h))
  ∧ (∀ h : string,
       cleanseHost (h +:+ "/") = Returned (if has_scheme h then h else "http://" +:+ h))
  ∧ (∀ p rest : string, p = "http://" ∨ p = "https://" → rest ≠ "" →
       ∃ r, cleanseHost (p +:+ rest) = Returned (p +:+ r) ∧ (r = rest ∨ rest = r +:+ "/")).
Proof.
  split; [|split].
  - intros h Hne Hslash Hscheme. rewrite cleanseHost_unfold.
    destruct (last_byte h) as [c|] eqn:E; [|by apply last_byte_None in E].
    destruct (Ascii.eqb_spec c "/") as [->|Hc].
    + apply HasSuffix_slash in E. congruence.
    + by rewrite with_scheme_add.
  - intros h. rewrite cleanseHost_snoc, Ascii.eqb_refl.
    destruct (has_scheme h) eqn:E; [by rewrite with_scheme_id|by rewrite with_scheme_add].
  - intros p rest Hp Hne.
    assert (Hpre : ∀ x, has_scheme (p +:+ x) = true).
    { intros x. unfold has_scheme.
      destruct Hp as [-> | ->]; rewrite HasPrefix_app; [done|apply orb_true_r]. }
    destruct (last_byte rest) as [c|] eqn:E; [|by apply last_byte_None in E].
    apply snoc_last in E. rewrite E, <- app_assoc', cleanseHost_snoc.
    destruct (Ascii.eqb_spec c "/") as [->|Hc].
    + exists (drop_last rest). split; [|by right]. by rewrite with_scheme_id.
    + exists (drop_last rest +:+ String c ""). split; [|by left].
      rewrite app_assoc'. by rewrite with_scheme_id.
Qed.

Lemma cleanseHost_normalizes_witness :
  cleanseHost "node.example:8732" = Returned "http://node.example:8732"
  ∧ cleanseHost "node.example:8732/" = Returned "http://node.example:8732"
  ∧ ∃ r, cleanseHost "https://node.example/" = Returned ("https://" +:+ r)
         ∧ (r = "node.example/" ∨ "node.example/" = r +:+ "/").
Proof.
  split; [|split].
  - apply (proj1 cleanseHost_normalizes "node.example:8732"); [discriminate|reflexivity..].
  - apply (proj1 (proj2 cleanseHost_normalizes) "node.example:8732").
  - apply (proj2 (proj2 cleanseHost_normalizes) "https://" "node.example/");
      [by right|discriminate].
Defined.

(** C7, as the code has it: for a non-empty host the result always starts
    with [http://] or [https://]; it ends with no slash exactly when the
    host is not ["/"] and does not end with two slashes, one trailing
    slash being all that is removed. *)
Theorem cleanseHost_scheme_and_slash (host : string) :
  host ≠ "" →
  ∃ r, cleanseHost host = Returned r
       ∧ has_scheme r = true
       ∧ (HasSuffix r "/" = false ↔ host ≠ "/" ∧ HasSuffix host "//" = false).
Proof.
  intros Hne.
  destruct (last_byte host) as [c|] eqn:E; [|by apply last_byte_None in E].
  apply snoc_last in E. revert E. generalize (drop_last host). intros h ->.
  rewrite cleanseHost_snoc.
  eexists. split; [done|]. split; [apply with_scheme_has_scheme|].
  destruct (Ascii.eqb_spec c "/") as [->|Hc].
  - rewrite HasSuffix_two_slashes. destruct h as [|x h].
    + split; [done|]. by intros [Hn _].
    + assert (HasSuffix (with_scheme (String x h)) "/" = HasSuffix (String x h) "/") as ->.
      { apply eq_true_iff_eq. by rewrite !HasSuffix_slash, with_scheme_last. }
      split; [|tauto]. intros ->. split; [|done].
      intros [=]. by destruct h.
  - assert (Hlast : last_byte (h +:+ String c "") = Some c) by apply last_byte_snoc.
    assert (h +:+ String c "" ≠ "") by (by destruct h).
    split.
    + intros _. split.
      * intros Eq. rewrite Eq in Hlast. by injection Hlast as <-.
      * apply not_true_is_false. intros [a Ha]%HasSuffix_spec.
        rewrite Ha in Hlast. change "//" with ("/" +:+ "/") in Hlast.
        rewrite <- app_assoc', last_byte_snoc in Hlast. congruence.
    + intros _. apply (HasSuffix_false_slash _ c); [|done].
      by rewrite with_scheme_last.
Qed.

Lemma cleanseHost_scheme_and_slash_witness :
  ∃ r, cleanseHost "node.example/" = Returned r
       ∧ has_scheme r = true
       ∧ (HasSuffix r "/" = false ↔ "node.example/" ≠ "/" ∧ HasSuffix "node.example/" "//" = false).
Proof. apply (cleanseHost_scheme_and_slash "node.example/"). discriminate. Defined.

(** C7 as stated fails: of two trailing slashes one is left. *)
Lemma cleanseHost_trailing_slash_left :
  "node.example//" ≠ ""
  ∧ cleanseHost "node.example//" = Returned "http://node.example/"
  ∧ HasSuffix "http://node.example/" "/" = true.
Proof. split; [discriminate|]. split; reflexivity. Qed.

(** C10: on a non-empty host the index [len(host)-1] is in bounds and
    [cleanseHost] returns a string; on the empty host the index is out of
    bounds, and [New] panics there before it reaches any fetch, whatever
    the node would answer. *)
Theorem cleanseHost_total :
  (∀ host : string, host ≠ "" →
     (∃ c, index host (len host - 1) = Returned c) ∧ (∃ r, cleanseHost host = Returned r))
  ∧ index "" (len "" - 1) = Panic IndexOutOfRange
  ∧ (∀ (C : Type) (CC : client C) (Constants Block : Type) (Hash : Block → string)
       (Head : GoTezos Constants → (option Block * option error) * C)
       (GetConstants : GoTezos Constants → string → (option Constants * option error) * C)
       (http_Client : C),
       New Constants Block Hash Head GetConstants http_Client "" = Panic IndexOutOfRange).
Proof.
  split; [|split]; [|done..].
  intros host Hne. rewrite index_last, cleanseHost_unfold.
  destruct (last_byte host) as [c|] eqn:E; [|by apply last_byte_None in E].
  split; by eexists.
Qed.

Lemma cleanseHost_total_witness :
  (∃ c, index "node.example" (len "node.example" - 1) = Returned c)
  ∧ (∃ r, cleanseHost "node.example" = Returned r).
Proof. apply (proj1 cleanseHost_total "node.example"). discriminate. Defined.

(** ** The transport executor *)

Lemma Contains_unfold (s substr : string) :
  Contains s substr =
  HasPrefix s substr || match s with
                        | EmptyString => false
                        | String _ s' => Contains s' substr
                        end.
Proof. by destruct s. Qed.

Lemma Contains_spec (s substr : string) :
  Contains s substr = true ↔ ∃ a b, s = a +:+ substr +:+ b.
Proof.
  split.
  - induction s as [|x s IH]; rewrite Contains_unfold.
    + rewrite orb_false_r. intros [r ->]%HasPrefix_spec. by exists "", r.
    + intros [[r ->]%HasPrefix_spec | (a & b & ->)%IH]%orb_true_iff.
      * by exists "", r.
      * by exists (String x a), b.
  - intros (a & b & ->). induction a as [|x a IH].
    + simpl. by rewrite Contains_unfold, HasPrefix_app.
    + rewrite Contains_unfold. simpl. rewrite IH. apply orb_true_r.
Qed.

Lemma Contains_middle (a s b : string) : Contains (a +:+ s +:+ b) s = true.
Proof. apply Contains_spec. by exists a, b. Qed.

Section Executor.

Context {C : Type} `{!client C} {Constants : Type}.

Implicit Types (t : GoTezos (C:=C) Constants) (req : Request) (resp : Response).
Implicit Types (byts : string) (c : C).

(** [do] once the transport has answered and the body has been read in
    full. *)
Lemma do_after_read t req resp c byts :
  Do (gt_client t) req = (Some resp, None, c) →
  ReadAll (Body resp) = Returned (byts, None) →
  do Constants t req =
  if negb (StatusCode resp =? StatusOK) then
    Returned ((byts, Some (Errorf ("response returned code " +:+ format_d (StatusCode resp)
                                     +:+ " with body " +:+ byts))), with_client Constants t c)
  else
    match handleRPCError byts with
    | Panic f => Panic f
    | Returned (Some e) => Returned ((byts, Some e), with_client Constants t c)
    | Returned None =>
        Returned ((byts, None), with_client Constants t (CloseIdleConnections c))
    end.
Proof.
  intros HDo HRead. unfold do. rewrite HDo, HRead. cbn [obind].
  destruct (negb (StatusCode resp =? StatusOK)); [done|].
  destruct (handleRPCError byts) as [[e|]|]; by destruct t.
Qed.

Lemma handleRPCError_no_text byts :
  Contains byts "error" = false → handleRPCError byts = Returned None.
Proof. unfold handleRPCError. by intros ->. Qed.

Lemma handleRPCError_text byts :
  handleRPCError byts ≠ Returned None → Contains byts "error" = true.
Proof.
  intros Hne. destruct (Contains byts "error") eqn:E; [done|].
  by rewrite handleRPCError_no_text in Hne.
Qed.

End Executor.

Section ExecutorClaims.

Context {C : Type} `{!client C} {Constants : Type}.

Implicit Types (t : GoTezos (C:=C) Constants) (req : Request) (resp : Response).
Implicit Types (byts : string) (c : C).

(** C1: when a 200-status body holds the text [error] and decodes into
    the entries [e :: rest], [do] returns the body together with the
    error [rpc error (kind): error] made of the first entry [e] alone;
    that message includes both strings of [e], and no other entry has a
    part in it. *)
Theorem do_reports_first_rpc_error t req resp c byts e rest :
  Do (gt_client t) req = (Some resp, None, c) →
  ReadAll (Body resp) = Returned (byts, None) →
  StatusCode resp = StatusOK →
  Contains byts "error" = true →
  Unmarshal byts = (e :: rest, None) →
  ∃ err, do Constants t req = Returned ((byts, Some err), with_client Constants t c)
         ∧ err = Errorf ("rpc error (" +:+ Kind e +:+ "): " +:+ Error e)
         ∧ Contains (message err) (Kind e) = true
         ∧ Contains (message err) (Error e) = true.
Proof.
  intros HDo HRead HStatus HText HDec.
  rewrite (do_after_read _ _ _ _ _ HDo HRead), HStatus.
  unfold handleRPCError. rewrite HText, HDec.
  eexists. split; [reflexivity|]. split; [reflexivity|]. split.
  - apply Contains_middle.
  - apply Contains_spec. exists ("rpc error (" +:+ Kind e +:+ "): "), "".
    cbn [message]. by rewrite app_empty_r, !app_assoc'.
Qed.

(** C2: a 200-status body without the text [error] is returned with no
    error, the idle connections being closed; and a 200-status body for
    which [do] returns an error, or on which [handleRPCError] does not
    return nil, holds the text [error]. *)
Theorem do_ok_without_error_text t req resp c byts :
  Do (gt_client t) req = (Some resp, None, c) →
  ReadAll (Body resp) = Returned (byts, None) →
  StatusCode resp = StatusOK →
  (Contains byts "error" = false →
     do Constants t req
     = Returned ((byts, None), with_client Constants t (CloseIdleConnections c)))
  ∧ (∀ out err t', do Constants t req = Returned ((out, Some err), t') →
       Contains byts "error" = true)
  ∧ (handleRPCError byts ≠ Returned None → Contains byts "error" = true).
Proof.
  intros HDo HRead HStatus.
  rewrite (do_after_read _ _ _ _ _ HDo HRead), HStatus. cbn [negb Z.eqb StatusOK Pos.eqb].
  split; [|split].
  - intros HText. by rewrite handleRPCError_no_text.
  - intros out err t' Hret. apply (handleRPCError_text byts).
    intros Hnil. by rewrite Hnil in Hret.
  - apply handleRPCError_text.
Qed.

(** C3: when the status code is not 200, [do] returns the bytes read
    together with the error [response returned code <code> with body
    <body>], whatever the body is; the message holds the decimal text of
    the code. *)
Theorem do_reports_status_code t req resp c byts :
  Do (gt_client t) req = (Some resp, None, c) →
  ReadAll (Body resp) = Returned (byts, None) →
  StatusCode resp ≠ StatusOK →
  ∃ err, do Constants t req = Returned ((byts, Some err), with_client Constants t c)
         ∧ err = Errorf ("response returned code " +:+ format_d (StatusCode resp)
                           +:+ " with body " +:+ byts)
         ∧ Contains (message err) (format_d (StatusCode resp)) = true.
Proof.
  intros HDo HRead HStatus.
  rewrite (do_after_read _ _ _ _ _ HDo HRead).
  destruct (Z.eqb_spec (StatusCode resp) StatusOK) as [|_]; [done|].
  eexists. split; [reflexivity|]. split; [reflexivity|]. apply Contains_middle.
Qed.

End ExecutorClaims.

Lemma do_reports_first_rpc_error_witness :
  ∃ err, do unit (mock_GoTezos (answer 200 example_body)) head_request
         = Returned ((example_body, Some err),
                     with_client unit (mock_GoTezos (answer 200 example_body))
                       (mkMock (answer 200 example_body) [head_request] 0))
         ∧ err = Errorf "rpc error (permanent): boom"
         ∧ Contains (message err) "permanent" = true
         ∧ Contains (message err) "boom" = true.
Proof.
  apply (do_reports_first_rpc_error (mock_GoTezos (answer 200 example_body)) head_request
           {| StatusCode := 200; Body := Some (Chunk example_body EOF) |}
           (mkMock (answer 200 example_body) [head_request] 0)
           example_body {| Kind := "permanent"; Error := "boom" |} []);
    vm_compute; reflexivity.
Defined.

Lemma do_ok_without_error_text_witness :
  (Contains block_body "error" = false →
     do unit (mock_GoTezos (answer 200 block_body)) head_request
     = Returned ((block_body, None),
                 with_client unit (mock_GoTezos (answer 200 block_body))
                   (CloseIdleConnections (mkMock (answer 200 block_body) [head_request] 0))))
  ∧ (∀ out err t', do unit (mock_GoTezos (answer 200 block_body)) head_request
                   = Returned ((out, Some err), t') →
       Contains block_body "error" = true)
  ∧ (handleRPCError block_body ≠ Returned None → Contains block_body "error" = true).
Proof.
  apply (do_ok_without_error_text (mock_GoTezos (answer 200 block_body)) head_request
           {| StatusCode := 200; Body := Some (Chunk block_body EOF) |}
           (mkMock (answer 200 block_body) [head_request] 0) block_body);
    vm_compute; reflexivity.
Defined.

Lemma do_reports_status_code_witness :
  ∃ err, do unit (mock_GoTezos (answer 404 example_body)) head_request
         = Returned ((example_body, Some err),
                     with_client unit (mock_GoTezos (answer 404 example_body))
                       (mkMock (answer 404 example_body) [head_request] 0))
         ∧ err = Errorf ("response returned code " +:+ format_d 404
                           +:+ " with body " +:+ example_body)
         ∧ Contains (message err) (format_d 404) = true.
Proof.
  apply (do_reports_status_code (mock_GoTezos (answer 404 example_body)) head_request
           {| StatusCode := 404; Body := Some (Chunk example_body EOF) |}
           (mkMock (answer 404 example_body) [head_request] 0) example_body);
    [vm_compute; reflexivity..|discriminate].
Defined.

Example do_status_404 :
  snd (fst (match do unit (mock_GoTezos (answer 404 "not found")) head_request with
            | Returned r => r
            | Panic _ => (("", None), mock_GoTezos (answer 404 "not found"))
            end))
  = Some (Errorf "response returned code 404 with body not found").
Proof. vm_compute. reflexivity. Qed.

(** ** The bootstrap sequence *)

Section Bootstrap.

Context {C : Type} `{!client C}.
Variables (Constants Block : Type) (Hash : Block → string).
Variable Head : GoTezos (C:=C) Constants → (option Block * option error) * C.
Variable GetConstants :
  GoTezos (C:=C) Constants → string → (option Constants * option error) * C.
Variable http_Client : C.

Local Abbreviation New' := (New Constants Block Hash Head GetConstants http_Client).
Local Abbreviation head_fails := (head_fails Constants Block Head http_Client).
Local Abbreviation constants_fails :=
  (constants_fails Constants Block Hash Head GetConstants http_Client).

Lemma New_head_fails host h cause c :
  cleanseHost host = Returned h → head_fails h cause c →
  New' host = Returned (Some (mkGoTezos c None h), Some (Wrapped cause bootstrap_message)).
Proof. intros Hh [block HHead]. unfold New. by rewrite Hh; cbn [obind]; rewrite HHead. Qed.

Lemma New_constants_fails host h cause c :
  cleanseHost host = Returned h → constants_fails h cause c →
  New' host = Returned (Some (mkGoTezos c None h), Some (Wrapped cause bootstrap_message)).
Proof.
  intros Hh (block & c1 & constants & HHead & HConst). unfold New.
  rewrite Hh; cbn [obind]; rewrite HHead. unfold with_client; cbn.
  by rewrite HConst.
Qed.


(** C5: when either fetch fails, [New] returns a client that is not nil
    and is initialised in part: it holds the normalised host, which
    starts with [http://] or [https://], and the transport built at lines
    65-73 as the failed fetch left it, while its cached constants are
    unset.  The error returned with it is not nil and is the cause
    wrapped. *)
Theorem New_failure_returns_client input h cause c :
  cleanseHost input = Returned h →
  head_fails h cause c ∨ constants_fails h cause c →
  ∃ gt err, New' input = Returned (Some gt, Some err)
            ∧ host gt = h
            ∧ has_scheme (host gt) = true
            ∧ gt_client gt = c
            ∧ networkConstants gt = None
            ∧ Wrap (Some cause) bootstrap_message = Some err
            ∧ Cause err = Cause cause.
Proof.
  intros Hh Hfail. exists (mkGoTezos c None h), (Wrapped cause bootstrap_message).
  split; [|split_and!; try done; by apply (cleanseHost_has_scheme input)].
  destruct Hfail; [by apply New_head_fails | by apply New_constants_fails].
Qed.

End Bootstrap.


Lemma New_failure_returns_client_witness :
  ∃ gt err, New unit string id head_down constants_down idle "node.example"
            = Returned (Some gt, Some err)
            ∧ host gt = "http://node.example"
            ∧ has_scheme (host gt) = true
            ∧ gt_client gt = idle
            ∧ networkConstants gt = None
            ∧ Wrap (Some refused) bootstrap_message = Some err
            ∧ Cause err = Cause refused.
Proof.
  apply (New_failure_returns_client unit string id head_down constants_down idle
           "node.example" "http://node.example" refused idle).
  - reflexivity.
  - left. exists None. reflexivity.
Defined.


(** ** The query builder *)

Section QueryBuilder.

Implicit Types (q : url.Values) (opts : list rpcOptions).
Implicit Types (k : string) (l : list (string * string)) (ks : list string).

Lemma Add_lookup_total key value q k :
  url.Add key value q !!! k
  = if decide (key = k) then (q !!! key) ++ [value] else q !!! k.
Proof.
  unfold url.Add. case_decide as E.
  - subst. by rewrite lookup_total_insert_eq.
  - by rewrite lookup_total_insert_ne.
Qed.

Lemma add_options_lookup q opts k :
  add_options q opts !!! k = (q !!! k) ++ (with_key k (option_pairs opts)).*2.
Proof.
  revert q. induction opts as [|[key value] opts IH]; intros q.
  - by rewrite app_nil_r.
  - simpl. change (foldl _ ?a opts) with (add_options a opts).
    rewrite IH, Add_lookup_total. unfold with_key. rewrite filter_cons. simpl.
    case_decide; [subst; by rewrite <- app_assoc|done].
Qed.

Lemma Add_is_Some key value q k :
  is_Some (q !! k) ∨ key = k → is_Some (url.Add key value q !! k).
Proof.
  unfold url.Add. destruct (decide (key = k)) as [->|Hne].
  - rewrite lookup_insert_eq. by eexists.
  - rewrite lookup_insert_ne by done. by intros [|].
Qed.

Lemma add_options_cons q opt opts :
  add_options q (opt :: opts) = add_options (url.Add (Key opt) (Value opt) q) opts.
Proof. done. Qed.

Lemma add_options_mono q opts k :
  is_Some (q !! k) → is_Some (add_options q opts !! k).
Proof.
  revert q. induction opts as [|opt opts IH]; intros q Hk; [done|].
  rewrite add_options_cons. apply IH, Add_is_Some. by left.
Qed.

Lemma add_options_key q opts opt :
  opt ∈ opts → is_Some (add_options q opts !! Key opt).
Proof.
  revert q. induction opts as [|opt' opts IH]; intros q Hin.
  - by apply elem_of_nil in Hin.
  - rewrite add_options_cons. apply elem_of_cons in Hin as [<-|Hin]; [|by apply IH].
    apply add_options_mono, Add_is_Some. by right.
Qed.

Lemma sorted_keys_elem q k : k ∈ url.sorted_keys q ↔ is_Some (q !! k).
Proof.
  unfold url.sorted_keys. rewrite merge_sort_Permutation.
  change (map fst (map_to_list q)) with ((map_to_list q).*1).
  rewrite list_elem_of_fmap. split.
  - intros ([k' v] & -> & Hin%elem_of_map_to_list). by exists v.
  - intros [v Hv]. exists (k, v). split; [done|]. by apply elem_of_map_to_list.
Qed.

Lemma sorted_keys_NoDup q : NoDup (url.sorted_keys q).
Proof.
  unfold url.sorted_keys. rewrite merge_sort_Permutation.
  apply NoDup_fst_map_to_list.
Qed.

Lemma sorted_keys_sorted q : StronglySorted String.le (url.sorted_keys q).
Proof. apply StronglySorted_merge_sort; apply _. Qed.

Lemma with_key_pairs k l : map (λ value, (k, value)) (with_key k l).*2 = with_key k l.
Proof.
  unfold with_key. induction l as [|[k' v] l IH]; [done|].
  rewrite filter_cons. cbn [fst]. case_decide as E; [|exact IH].
  subst. cbn. f_equal. exact IH.
Qed.

(** What [Encode] writes after the options were added to an empty
    query: for each key in ascending order, the options with that
    key. *)
Lemma encoded_pairs_add_options opts :
  url.encoded_pairs (add_options ∅ opts)
  = flat_map (λ k, with_key k (option_pairs opts)) (url.sorted_keys (add_options ∅ opts)).
Proof.
  unfold url.encoded_pairs. apply flat_map_ext. intros k.
  unfold url.pairs_of. rewrite add_options_lookup, lookup_total_empty. simpl.
  apply with_key_pairs.
Qed.

Lemma with_key_with_key k k' l :
  with_key k (with_key k' l) = if decide (k = k') then with_key k l else [].
Proof.
  unfold with_key. induction l as [|p l IH]; [by case_decide|].
  destruct (decide (p.1 = k')) as [E1|E1].
  - rewrite (filter_cons_True (λ p, p.1 = k') p l E1).
    destruct (decide (p.1 = k)) as [E2|E2].
    + rewrite !(filter_cons_True (λ p, p.1 = k)) by done. rewrite IH.
      by rewrite !decide_True by congruence.
    + rewrite (filter_cons_False (λ p, p.1 = k)) by done. rewrite IH.
      case_decide; [|done]. by rewrite filter_cons_False.
  - rewrite (filter_cons_False (λ p, p.1 = k') p l E1), IH.
    case_decide; [|done]. subst. by rewrite filter_cons_False.
Qed.

Lemma with_key_absent k l : (∀ p, p ∈ l → p.1 ≠ k) → with_key k l = [].
Proof.
  unfold with_key. induction l as [|p l IH]; intros Hall; [done|].
  rewrite filter_cons_False by (apply Hall; by left).
  apply IH. intros p' Hp'. apply Hall. by right.
Qed.

Lemma with_key_app k l1 l2 : with_key k (l1 ++ l2) = with_key k l1 ++ with_key k l2.
Proof. apply filter_app. Qed.

Lemma with_key_flat_map k ks l :
  NoDup ks →
  with_key k (flat_map (λ k', with_key k' l) ks)
  = if decide (k ∈ ks) then with_key k l else [].
Proof.
  induction 1 as [|k' ks Hnotin Hnd IH]; simpl.
  - done.
  - rewrite with_key_app, IH, with_key_with_key.
    destruct (decide (k = k')) as [->|Hne].
    + rewrite (decide_False (P := k' ∈ ks)) by done.
      rewrite decide_True by left. apply app_nil_r.
    + destruct (decide (k ∈ ks)) as [Hin|Hin].
      * by rewrite decide_True by by right.
      * rewrite decide_False; [done|]. by intros [|]%elem_of_cons.
Qed.

Lemma flat_map_with_key_Permutation ks l :
  NoDup ks → (∀ p, p ∈ l → p.1 ∈ ks) →
  flat_map (λ k, with_key k l) ks ≡ₚ l.
Proof.
  intros Hnd Hall.
  assert (flat_map (λ k, with_key k l) ks ≡ₚ filter (λ p, p.1 ∈ ks) l) as ->.
  { clear Hall. induction Hnd as [|k ks Hnotin Hnd IH]; simpl.
    - induction l as [|p l IHl]; [done|]. rewrite filter_cons_False; [done|].
      apply not_elem_of_nil.
    - rewrite IH. clear IH. unfold with_key.
      induction l as [|p l IHl]; [done|].
      destruct (decide (p.1 = k)) as [E|E].
      + rewrite (filter_cons_True (λ p, p.1 = k)) by done.
        rewrite (filter_cons_False (λ p, p.1 ∈ ks)) by by rewrite E.
        rewrite (filter_cons_True (λ p, p.1 ∈ k :: ks)) by (rewrite E; left).
        simpl. by rewrite IHl.
      + rewrite (filter_cons_False (λ p, p.1 = k)) by done.
        destruct (decide (p.1 ∈ ks)) as [Hin|Hin].
        * rewrite (filter_cons_True (λ p, p.1 ∈ ks)) by done.
          rewrite (filter_cons_True (λ p, p.1 ∈ k :: ks)) by by right.
          by rewrite <- Permutation_middle, IHl.
        * rewrite (filter_cons_False (λ p, p.1 ∈ ks)) by done.
          rewrite (filter_cons_False (λ p, p.1 ∈ k :: ks)); [done|].
          by intros [|]%elem_of_cons.
  }
  induction l as [|p l IHl]; [done|].
  rewrite filter_cons. case_decide as E.
  - f_equiv. apply IHl. intros p' Hp'. apply Hall. by right.
  - exfalso. apply E, Hall. by left.
Qed.

Lemma flat_map_with_key_sorted ks l :
  StronglySorted String.le ks →
  StronglySorted String.le (flat_map (λ k, with_key k l) ks).*1.
Proof.
  induction 1 as [|k ks Hss IH Hall]; simpl; [constructor|].
  rewrite fmap_app. apply StronglySorted_app. split_and!; [| |done].
  - intros k1 k2 Hk1 Hk2.
    apply list_elem_of_fmap in Hk1 as (p1 & -> & [E1 _]%list_elem_of_filter).
    apply list_elem_of_fmap in Hk2 as (p2 & -> & Hp2).
    apply list_elem_of_In, in_flat_map in Hp2 as (k' & Hk' & Hp2).
    apply list_elem_of_In, list_elem_of_filter in Hp2 as [E2 _].
    simpl in E1, E2. rewrite E1, E2.
    rewrite Forall_forall in Hall. apply Hall. apply list_elem_of_In. exact Hk'.
  - clear IH. unfold with_key. induction l as [|p l IHl]; [constructor|].
    rewrite filter_cons. case_decide as Ep; [|exact IHl]. simpl. constructor; [done|].
    apply Forall_forall. intros k' Hk'.
    apply list_elem_of_fmap in Hk' as (p' & -> & [E _]%list_elem_of_filter).
    simpl in E. by rewrite E, Ep.
Qed.

(** Two lists sorted by key that hold the same pairs under every key, in
    the same order, are equal. *)
Lemma sorted_by_key_unique l1 l2 :
  StronglySorted String.le l1.*1 → StronglySorted String.le l2.*1 →
  (∀ k, with_key k l1 = with_key k l2) → l1 = l2.
Proof.
  revert l2. induction l1 as [|p l1 IH]; intros l2 Hs1 Hs2 Hk.
  - destruct l2 as [|q l2]; [done|].
    specialize (Hk q.1). unfold with_key in Hk.
    rewrite filter_cons_True in Hk by done. done.
  - destruct l2 as [|q l2].
    { specialize (Hk p.1). unfold with_key in Hk.
      rewrite filter_cons_True in Hk by done. done. }
    simpl in Hs1, Hs2.
    apply StronglySorted_inv in Hs1 as [Hs1 Hp], Hs2 as [Hs2 Hq].
    rewrite Forall_forall in Hp, Hq.
    assert (Hle : ∀ (a b : string * string) (la lb : list (string * string)),
               (∀ k, k ∈ la.*1 → String.le a.1 k) →
               a.1 ≠ b.1 → with_key b.1 (a :: la) = with_key b.1 (b :: lb) →
               String.le a.1 b.1).
    { intros a b la lb Hla Hne E. unfold with_key in E.
      rewrite filter_cons_False, filter_cons_True in E by done.
      apply Hla, list_elem_of_fmap. exists b. split; [done|].
      eapply list_elem_of_filter. rewrite E. by left. }
    assert (Ekey : p.1 = q.1).
    { destruct (decide (p.1 = q.1)) as [|Hne]; [done|].
      apply (anti_symm String.le).
      - by apply (Hle p q l1 l2).
      - apply (Hle q p l2 l1); [done|done|]. symmetry. apply Hk. }
    assert (p = q) as ->.
    { specialize (Hk p.1). unfold with_key in Hk.
      rewrite !filter_cons_True in Hk by done. congruence. }
    f_equal. apply IH; [done..|].
    intros k. specialize (Hk k). unfold with_key in *.
    rewrite !filter_cons in Hk. case_decide; congruence.
Qed.

End QueryBuilder.

Lemma Join_Contains (l : list string) (sep x : string) :
  x ∈ l → Contains (Join l sep) x = true.
Proof.
  induction l as [|y l IH]; intros Hin; [by apply elem_of_nil in Hin|].
  apply Contains_spec. apply elem_of_cons in Hin as [->|Hin].
  - destruct l as [|z l]; [exists "", ""|exists "", (sep +:+ Join (z :: l) sep)];
      simpl; by rewrite ?app_empty_r.
  - destruct l as [|z l]; [by apply elem_of_nil in Hin|].
    apply IH, Contains_spec in Hin as (a & b & E).
    exists (y +:+ sep +:+ a), b. cbn [Join] in *. rewrite E. by rewrite !app_assoc'.
Qed.

Lemma Query_empty (u : url.URL) : url.RawQuery u = "" → url.Query u = ∅.
Proof. unfold url.Query. by intros ->. Qed.

(** C8, as the code has it: on a request with no query, the query written
    is the [&]-joined encoding of a list [pairs] that holds every option
    (a permutation of the options, so a key given twice appears twice),
    in ascending order of the keys, the options of one key in the order
    they were given; every option's encoding is a part of the query; and
    options given with ascending keys keep their order. *)
Theorem constructQueryParams_sorts_by_key (req : Request) (opts : list rpcOptions) :
  url.RawQuery (URL req) = "" →
  ∃ pairs,
    url.RawQuery (URL (constructQueryParams req opts)) = Join (map url.encode_pair pairs) "&"
    ∧ pairs ≡ₚ option_pairs opts
    ∧ StronglySorted String.le pairs.*1
    ∧ (∀ k, with_key k pairs = with_key k (option_pairs opts))
    ∧ (∀ opt, opt ∈ opts →
         Contains (url.RawQuery (URL (constructQueryParams req opts)))
                  (url.encode_pair (Key opt, Value opt)) = true)
    ∧ (StronglySorted String.le (Key <$> opts) → pairs = option_pairs opts).
Proof.
  intros Hq. exists (url.encoded_pairs (add_options ∅ opts)).
  assert (Hraw : url.RawQuery (URL (constructQueryParams req opts))
                 = Join (map url.encode_pair (url.encoded_pairs (add_options ∅ opts))) "&").
  { unfold constructQueryParams. by rewrite (Query_empty _ Hq). }
  assert (Hkeys : ∀ p, p ∈ option_pairs opts → p.1 ∈ url.sorted_keys (add_options ∅ opts)).
  { intros p (opt & -> & Hin)%list_elem_of_fmap.
    apply sorted_keys_elem. by apply add_options_key. }
  assert (Hperm : url.encoded_pairs (add_options ∅ opts) ≡ₚ option_pairs opts).
  { rewrite encoded_pairs_add_options.
    apply flat_map_with_key_Permutation; [apply sorted_keys_NoDup|done]. }
  assert (Hsorted : StronglySorted String.le (url.encoded_pairs (add_options ∅ opts)).*1).
  { rewrite encoded_pairs_add_options.
    apply flat_map_with_key_sorted, sorted_keys_sorted. }
  assert (Hsame : ∀ k, with_key k (url.encoded_pairs (add_options ∅ opts))
                       = with_key k (option_pairs opts)).
  { intros k. rewrite encoded_pairs_add_options.
    rewrite with_key_flat_map by apply sorted_keys_NoDup.
    case_decide as Hk; [done|]. symmetry. apply with_key_absent.
    intros p Hp E. apply Hk. rewrite <- E. by apply Hkeys. }
  split_and!; [done..| |].
  - intros opt Hin. rewrite Hraw. apply Join_Contains.
    apply list_elem_of_fmap. exists (Key opt, Value opt). split; [done|].
    rewrite Hperm. apply list_elem_of_fmap. by exists opt.
  - intros Hopts. apply sorted_by_key_unique; [done| |done].
    unfold option_pairs. by rewrite <- list_fmap_compose.
Qed.

Lemma constructQueryParams_sorts_by_key_witness :
  ∃ pairs,
    url.RawQuery (URL (constructQueryParams plain_request [mkOption "a" "1"; mkOption "b" "2"]))
    = Join (map url.encode_pair pairs) "&"
    ∧ pairs ≡ₚ [("a", "1"); ("b", "2")]
    ∧ StronglySorted String.le pairs.*1
    ∧ (∀ k, with_key k pairs = with_key k [("a", "1"); ("b", "2")])
    ∧ (∀ opt, opt ∈ [mkOption "a" "1"; mkOption "b" "2"] →
         Contains (url.RawQuery (URL (constructQueryParams plain_request
                                        [mkOption "a" "1"; mkOption "b" "2"])))
                  (url.encode_pair (Key opt, Value opt)) = true)
    ∧ (StronglySorted String.le (Key <$> [mkOption "a" "1"; mkOption "b" "2"]) →
         pairs = [("a", "1"); ("b", "2")]).
Proof.
  apply (constructQueryParams_sorts_by_key plain_request [mkOption "a" "1"; mkOption "b" "2"]).
  reflexivity.
Defined.

(** C8 as stated fails: two options with distinct keys are written in the
    order of their keys, not in the order they were given. *)
Lemma constructQueryParams_reorders :
  url.RawQuery (URL plain_request) = ""
  ∧ NoDup (Key <$> [mkOption "b" "2"; mkOption "a" "1"])
  ∧ url.RawQuery (URL (constructQueryParams plain_request [mkOption "b" "2"; mkOption "a" "1"]))
    = "a=1&b=2"
  ∧ Join (map url.encode_pair (option_pairs [mkOption "b" "2"; mkOption "a" "1"])) "&"
    = "b=2&a=1".
Proof.
  split; [reflexivity|]. split; [|split; vm_compute; reflexivity].
  apply NoDup_cons. split; [|apply NoDup_singleton].
  intros [[=]|Hin]%elem_of_cons. by apply elem_of_nil in Hin.
Qed.

(** ** The scanner: inputs that decode into no entry *)

Section Scanner.

Import JSON.

Implicit Types (s : state) (st : list frame) (m : mode) (v : value) (c : ascii).

Lemma empty_value_rev_cons v els : empty_value (VArray (rev (v :: els))) = false.
Proof. simpl. by destruct (rev els). Qed.

Lemma deep_cons_cons f1 f2 st : deep (f1 :: f2 :: st) = true.
Proof. by destruct f1 as [[|]|]. Qed.

Lemma doomed_deep m st :
  deep st = true → match m with EndTop _ => False | _ => True end → doomed (m, st) = true.
Proof. intros Hdeep. unfold doomed. rewrite Hdeep. by destruct m. Qed.

Lemma doomed_complete v st s :
  complete v st = Some s → (st = [] → empty_value v = false) → doomed s = true.
Proof.
  destruct st as [|[els|fs [k|]] st]; simpl; intros Hs Hv; simplify_eq/=.
  - by rewrite Hv.
  - by destruct st.
  - by destruct st.
  - destruct v; simplify_eq/=. by destruct st.
Qed.

Lemma doomed_begin_value c st s :
  st ≠ [] → begin_value c st = Some s → doomed s = true.
Proof.
  intros Hst. unfold begin_value, push.
  destruct st as [|f st]; [done|].
  assert (deep (FObject [] None :: f :: st) = true) by apply deep_cons_cons.
  assert (deep (FArray [] :: f :: st) = true) by apply deep_cons_cons.
  repeat case_match; intros; simplify_eq; cbn [doomed];
    try (by rewrite ?deep_cons_cons);
    by (destruct f as [[|]|]; destruct st).
Qed.

Lemma doomed_end_value c s s' :
  doomed s = true → end_value c s = Some s' → doomed s' = true.
Proof.
  destruct s as [m st]. unfold end_value.
  destruct m; try done.
  - (* EndValue *)
    destruct (is_space c); [by intros ? [= <-]|].
    destruct st as [|[els|fs [k|]] st]; [done|..]; intros Hd Hs.
    + (* in an array *)
      assert (Hdeep : deep (FArray els :: st) = true).
      { destruct els, st; simpl in Hd; done. }
      repeat case_match; simplify_eq; [by apply doomed_deep|].
      eapply doomed_complete; [done|]. intros ->.
      destruct els as [|v els]; [done|]. apply empty_value_rev_cons.
    + (* after a key *)
      repeat case_match; simplify_eq. by destruct st.
    + (* after the value of a key *)
      repeat case_match; simplify_eq; [by destruct st|].
      eapply doomed_complete; done.
  - (* EndTop *)
    destruct (is_space c); [by intros ? [= <-]|done].
Qed.

Lemma doomed_end_number c st s :
  end_number c st = Some s → doomed s = true.
Proof.
  unfold end_number. destruct (complete VNumber st) as [s1|] eqn:E; [|done].
  apply doomed_end_value. by eapply doomed_complete.
Qed.

Lemma doomed_scalar m st :
  match m with
  | BeginValue | BeginValueOrEmpty | EndValue | EndTop _ | Lit _ _ => False
  | _ => True
  end → doomed (m, st) = true.
Proof.
  destruct m; try done; intros _; cbn;
    destruct st as [|[[|]|] [|]]; done.
Qed.

(** A doomed state stays doomed. *)
Lemma doomed_step s c s' : doomed s = true → step s c = Some s' → doomed s' = true.
Proof.
  destruct s as [m st]. intros Hd. unfold step.
  destruct m.
  - (* BeginValue *)
    destruct (is_space c); [by intros [= <-]|].
    apply doomed_begin_value. by destruct st.
  - (* BeginValueOrEmpty *)
    destruct (is_space c); [by intros [= <-]|].
    destruct (Ascii.eqb c "]").
    + destruct st as [|[els|] st]; [done| |done]. intros Hs.
      eapply doomed_complete; [done|]. intros ->.
      destruct els as [|v els]; [done|]. apply empty_value_rev_cons.
    + apply doomed_begin_value. by destruct st.
  - (* BeginString *)
    destruct (is_space c); [by intros [= <-]|].
    case_match; [|done]. intros [= <-]. by apply doomed_scalar.
  - (* BeginStringOrEmpty *)
    destruct (is_space c); [by intros [= <-]|].
    repeat case_match; try done; intros; simplify_eq;
      first [by apply doomed_scalar | by eapply doomed_complete].
  - by apply doomed_end_value.
  - by apply doomed_end_value.
  - (* InString *)
    repeat case_match; try done; intros; simplify_eq; try by apply doomed_scalar.
    by eapply doomed_complete.
  - repeat case_match; try done; intros; simplify_eq; by apply doomed_scalar.
  - repeat case_match; try done; intros; simplify_eq; by apply doomed_scalar.
  - repeat case_match; try done; intros; simplify_eq; by apply doomed_scalar.
  - (* Zero *)
    unfold state0. repeat case_match; try done; intros; simplify_eq;
      try (by apply doomed_scalar). by eapply doomed_end_number.
  - (* Digits *)
    unfold state0. repeat case_match; try done; intros; simplify_eq;
      try (by apply doomed_scalar). by eapply doomed_end_number.
  - repeat case_match; try done; intros; simplify_eq; by apply doomed_scalar.
  - repeat case_match; try done; intros; simplify_eq;
      try (by apply doomed_scalar). by eapply doomed_end_number.
  - repeat case_match; try done; intros; simplify_eq; by apply doomed_scalar.
  - repeat case_match; try done; intros; simplify_eq; by apply doomed_scalar.
  - repeat case_match; try done; intros; simplify_eq;
      try (by apply doomed_scalar). by eapply doomed_end_number.
  - (* Lit *)
    destruct rest as [|x rest]; [done|].
    destruct (Ascii.eqb c x); [|done].
    destruct rest as [|y rest].
    + intros Hs. eapply doomed_complete; [done|]. intros ->.
      cbn in Hd. by destruct (empty_value v).
    + intros [= <-]. cbn in *. by destruct st as [|[[|]|] [|]].
Qed.

End Scanner.

Section EmptyDecoding.

Import JSON.

Implicit Types (s : state) (st : list frame) (m : mode) (v : value) (c : ascii).

(** No clean state reads the byte [e]. *)
Lemma clean_rejects_e s : clean s = true → step s "e" = None.
Proof.
  destruct s as [m st].
  destruct m as [| | | | |v| | | | | | | | | | | |rest v]; try done.
  destruct v; try done. destruct st; [|done].
  destruct rest as [|x rest]; [done|].
  cbn [clean occurs step]. rewrite negb_true_iff, orb_false_iff.
  intros [Hx _]. rewrite Ascii.eqb_sym in Hx. by rewrite Hx.
Qed.

(** A clean state steps to a clean state or to a doomed one. *)
Lemma clean_step s c s' :
  clean s = true → step s c = Some s' → clean s' = true ∨ doomed s' = true.
Proof.
  destruct s as [m st].
  destruct m as [| | | | |v| | | | | | | | | | | |rest v]; try done.
  - (* BeginValue *)
    destruct st; [intros _|done].
    cbn [step]. destruct (is_space c); [intros [= <-]; by left|].
    unfold begin_value, push.
    repeat case_match; try done; intros; simplify_eq; (by left) || (by right).
  - (* BeginValueOrEmpty *)
    destruct st as [|[[|]|] [|]]; try done. intros _.
    cbn [step]. destruct (is_space c); [intros [= <-]; by left|].
    destruct (Ascii.eqb c "]"); [cbn; intros [= <-]; by left|].
    intros Hs. right. by apply (doomed_begin_value c [FArray []]).
  - (* EndTop *)
    destruct st; [intros Hc|done].
    cbn [step end_value]. destruct (is_space c); [intros [= <-]; by left|done].
  - (* Lit *)
    destruct v; try done. destruct st; [intros Hc|done].
    destruct rest as [|x rest]; [done|].
    cbn [clean occurs] in Hc. rewrite negb_true_iff, orb_false_iff in Hc.
    destruct Hc as [_ Hrest].
    cbn [step]. destruct (Ascii.eqb c x); [|done].
    destruct rest as [|y rest]; intros [= <-]; left; [done|].
    cbn [clean]. by rewrite Hrest.
Qed.

Lemma doomed_run s data s' :
  doomed s = true → run s data = Some s' → doomed s' = true.
Proof.
  revert s. induction data as [|c data IH]; intros s Hd; simpl.
  - by intros [= <-].
  - destruct (step s c) as [s1|] eqn:E; [|done].
    apply IH. by eapply doomed_step.
Qed.

Lemma clean_run s data s' :
  clean s = true → run s data = Some s' →
  doomed s' = true ∨ occurs "e" data = false.
Proof.
  revert s. induction data as [|c data IH]; intros s Hc; simpl; [by right|].
  destruct (Ascii.eqb_spec c "e") as [->|Hne].
  { by rewrite clean_rejects_e. }
  destruct (step s c) as [s1|] eqn:E; [|done]. intros Hrun.
  destruct (clean_step _ _ _ Hc E) as [Hc1|Hd1].
  - by apply (IH s1).
  - left. by eapply doomed_run.
Qed.

Lemma doomed_eof s v : doomed s = true → eof s = Some v → empty_value v = false.
Proof.
  intros Hd. unfold eof.
  assert (Hsp : match step s " " with
                | Some (EndTop v', _) => Some v'
                | _ => None
                end = Some v → empty_value v = false).
  { destruct (step s " ") as [[m1 st1]|] eqn:E; [|done].
    apply (doomed_step _ _ _ Hd) in E. destruct m1; try done.
    intros [= ->]. cbn in E. by destruct (empty_value v). }
  destruct s as [m st]. destruct m; exact Hsp.
Qed.

(** An input whose value is [null] or the empty array holds no [e]. *)
Lemma parse_empty_value data v :
  parse data = Some v → empty_value v = true → occurs "e" data = false.
Proof.
  unfold parse. destruct (run (BeginValue, []) data) as [s|] eqn:E; [|done].
  intros Heof Hv.
  destruct (clean_run (BeginValue, []) data s eq_refl E) as [Hd|]; [|done].
  by rewrite (doomed_eof _ _ Hd Heof) in Hv.
Qed.

End EmptyDecoding.

Lemma occurs_app (c : ascii) (a b : string) :
  occurs c (a +:+ b) = occurs c a || occurs c b.
Proof. induction a as [|x a IH]; simpl; [done|]. by rewrite IH, orb_assoc. Qed.

Lemma Contains_occurs (s r : string) (c : ascii) :
  Contains s (String c r) = true → occurs c s = true.
Proof.
  intros (a & b & ->)%Contains_spec. rewrite occurs_app. simpl.
  rewrite Ascii.eqb_refl. apply orb_true_r.
Qed.

Lemma decode_elements_length (saved : option json_error) (l : list JSON.value) :
  length (decode_elements saved l).1 = length l.
Proof.
  revert saved. induction l as [|v l IH]; intros saved; [done|]. simpl.
  destruct (decode_element saved v) as [r saved1].
  specialize (IH saved1). destruct (decode_elements saved1 l). simpl in *. by rewrite IH.
Qed.

(** Only [null] and the empty array decode into no entry without an
    error. *)
Lemma Unmarshal_empty (data : string) :
  Unmarshal data = ([], None) →
  ∃ v, JSON.parse data = Some v ∧ empty_value v = true.
Proof.
  unfold Unmarshal. destruct (JSON.parse data) as [v|]; [|done].
  destruct v as [| | | |l|]; try done; intros E; eexists; (split; [done|]); [done|].
  pose proof (decode_elements_length None l) as Hlen. rewrite E in Hlen.
  by destruct l.
Qed.

(** A body that holds the text [error] does not decode into an empty
    slice without an error. *)
Lemma Unmarshal_error_text_nonempty (data : string) :
  Contains data "error" = true → Unmarshal data ≠ ([], None).
Proof.
  intros Htext (v & Hparse & Hv)%Unmarshal_empty.
  apply Contains_occurs in Htext.
  by rewrite (parse_empty_value _ _ Hparse Hv) in Htext.
Qed.

(** X22: a body that holds the text [error] never decodes into an empty
    slice without an error, so the index of line 189 is in bounds; on
    such a body [handleRPCError] returns, and what it returns is never
    nil: the decoding error, wrapped, or the error made of the first
    entry. *)
Theorem handleRPCError_error_text (body : string) :
  Contains body "error" = true →
  Unmarshal body ≠ ([], None)
  ∧ ∃ err, handleRPCError body = Returned (Some err)
           ∧ match Unmarshal body with
             | (_, Some e) => err = Wrapped (JSONError e) "could not unmarshal rpc error"
             | (e0 :: _, None) =>
                 err = Errorf ("rpc error (" +:+ Kind e0 +:+ "): " +:+ Error e0)
             | ([], None) => False
             end.
Proof.
  intros Htext. pose proof (Unmarshal_error_text_nonempty body Htext) as Hne.
  split; [done|]. unfold handleRPCError. rewrite Htext.
  destruct (Unmarshal body) as [[|e0 rest] [e|]]; try done; by eexists.
Qed.

Lemma handleRPCError_error_text_witness :
  Unmarshal "error" ≠ ([], None)
  ∧ ∃ err, handleRPCError "error" = Returned (Some err)
           ∧ match Unmarshal "error" with
             | (_, Some e) => err = Wrapped (JSONError e) "could not unmarshal rpc error"
             | (e0 :: _, None) =>
                 err = Errorf ("rpc error (" +:+ Kind e0 +:+ "): " +:+ Error e0)
             | ([], None) => False
             end.
Proof. apply (handleRPCError_error_text "error"). reflexivity. Defined.

(** Lines 186-189 have no test of the length: on an empty slice with no
    error, which the decoding of such a body never leaves, the index of
    line 189 would be out of range. *)
Example handleRPCError_empty_slice_faults :
  handleRPCError_decoded ([], None) = Panic IndexOutOfRange.
Proof. reflexivity. Qed.

(** * Further properties *)

(** ** The transport executor, on every path *)

Lemma handleRPCError_returns (body : string) :
  ∃ r, handleRPCError body = Returned r ∧ (r = None ↔ Contains body "error" = false).
Proof.
  unfold handleRPCError. destruct (Contains body "error") eqn:Htext.
  - pose proof (Unmarshal_error_text_nonempty body Htext) as Hne.
    destruct (Unmarshal body) as [[|e0 rest] [e|]]; try done; eexists; by split.
  - by exists None.
Qed.

Section ExecutorPaths.

Context {C : Type} `{!client C} {Constants : Type}.

Implicit Types (t : GoTezos (C:=C) Constants) (req : Request) (resp : Response).
Implicit Types (byts : string) (c : C).

Lemma do_transport_fails t req ans e c :
  Do (gt_client t) req = (ans, Some e, c) →
  do Constants t req
  = Returned (("", Some (Wrapped e "failed to complete request")), with_client Constants t c).
Proof. intros HDo. unfold do. by rewrite HDo. Qed.

Lemma do_nil_response t req c :
  Do (gt_client t) req = (None, None, c) → do Constants t req = Panic NilDereference.
Proof. intros HDo. unfold do. by rewrite HDo. Qed.

Lemma do_read_fails t req resp c byts e :
  Do (gt_client t) req = (Some resp, None, c) →
  ReadAll (Body resp) = Returned (byts, Some e) →
  do Constants t req
  = Returned ((byts, Some (Wrapped e "could not read response body")),
              with_client Constants t c).
Proof. intros HDo HRead. unfold do. by rewrite HDo, HRead. Qed.

Lemma do_nil_body t req resp c :
  Do (gt_client t) req = (Some resp, None, c) → Body resp = None →
  do Constants t req = Panic NilDereference.
Proof. intros HDo HBody. unfold do. by rewrite HDo, HBody. Qed.

(** [ioutil.ReadAll] panics on the nil reader only. *)
Lemma ReadAll_cases (body : option reader) :
  (body = None ∧ ReadAll body = Panic NilDereference)
  ∨ ∃ byts e, ReadAll body = Returned (byts, e).
Proof.
  destruct body as [r|]; [right|by left].
  simpl. destruct (read_all r) as [b e]. by exists b, e.
Qed.

(** X1: when the transport fails, [do] returns no bytes and the cause
    wrapped as [failed to complete request], whatever response came with
    the error; the idle connections are not closed. *)
Theorem do_transport_error t req ans e c :
  Do (gt_client t) req = (ans, Some e, c) →
  ∃ err, do Constants t req = Returned (("", Some err), with_client Constants t c)
         ∧ message err = "failed to complete request: " +:+ message e
         ∧ Cause err = Cause e.
Proof.
  intros HDo. rewrite (do_transport_fails _ _ _ _ _ HDo). by eexists.
Qed.

(** X2: when reading the body fails, [do] returns the bytes read before
    the failure and the cause wrapped as [could not read response body];
    neither the status code nor the text of the body is looked at. *)
Theorem do_read_error_first t req resp c byts e :
  Do (gt_client t) req = (Some resp, None, c) →
  ReadAll (Body resp) = Returned (byts, Some e) →
  ∃ err, do Constants t req = Returned ((byts, Some err), with_client Constants t c)
         ∧ message err = "could not read response body: " +:+ message e
         ∧ Cause err = Cause e.
Proof.
  intros HDo HRead. rewrite (do_read_fails _ _ _ _ _ _ HDo HRead). by eexists.
Qed.

(** X3: [do] returns a nil error exactly when the transport answered, the
    body was read in full, the status is 200 and the body does not hold
    the text [error]; the client it leaves then has had its idle
    connections closed. *)
Theorem do_succeeds_iff t req byts t' :
  do Constants t req = Returned ((byts, None), t')
  ↔ ∃ resp c, Do (gt_client t) req = (Some resp, None, c)
              ∧ ReadAll (Body resp) = Returned (byts, None)
              ∧ StatusCode resp = StatusOK
              ∧ Contains byts "error" = false
              ∧ t' = with_client Constants t (CloseIdleConnections c).
Proof.
  split.
  - destruct (Do (gt_client t) req) as [[[resp|] [e|]] c] eqn:HDo.
    + by rewrite (do_transport_fails _ _ _ _ _ HDo).
    + destruct (ReadAll_cases (Body resp)) as [[HBody _]|(b & e & HRead)].
      { by rewrite (do_nil_body _ _ _ _ HDo HBody). }
      destruct e as [e|].
      { by rewrite (do_read_fails _ _ _ _ _ _ HDo HRead). }
      rewrite (do_after_read _ _ _ _ _ HDo HRead).
      destruct (Z.eqb_spec (StatusCode resp) StatusOK) as [HStatus|]; [|done].
      cbn [negb].
      destruct (handleRPCError_returns b) as (r & -> & Hr).
      destruct r as [e|]; [done|]. intros [= <- <-].
      exists resp, c. split_and!; try done. by apply Hr.
    + by rewrite (do_transport_fails _ _ _ _ _ HDo).
    + by rewrite (do_nil_response _ _ _ HDo).
  - intros (resp & c & HDo & HRead & HStatus & HText & ->).
    rewrite (do_after_read _ _ _ _ _ HDo HRead), HStatus.
    by rewrite handleRPCError_no_text.
Qed.

(** X4: once the transport's [Do] has returned, [do] panics in two cases
    only, both a nil dereference at line 154 and both with a nil error
    from the transport: the response is nil, or its body is.  A response
    that has a body never makes [do] panic, whatever its status and
    whatever bytes, or read error, the body gives. *)
Theorem do_panics_iff t req f :
  do Constants t req = Panic f
  ↔ f = NilDereference
    ∧ ∃ ans c, Do (gt_client t) req = (ans, None, c)
               ∧ match ans with
                 | None => True
                 | Some resp => Body resp = None
                 end.
Proof.
  split.
  - destruct (Do (gt_client t) req) as [[[resp|] [e|]] c] eqn:HDo.
    + by rewrite (do_transport_fails _ _ _ _ _ HDo).
    + destruct (ReadAll_cases (Body resp)) as [[HBody _]|(b & e & HRead)].
      { rewrite (do_nil_body _ _ _ _ HDo HBody). intros [= <-].
        split; [done|]. by exists (Some resp), c. }
      destruct e as [e|].
      { by rewrite (do_read_fails _ _ _ _ _ _ HDo HRead). }
      rewrite (do_after_read _ _ _ _ _ HDo HRead).
      destruct (negb (StatusCode resp =? StatusOK)); [done|].
      destruct (handleRPCError_returns b) as (r & -> & _). by destruct r.
    + by rewrite (do_transport_fails _ _ _ _ _ HDo).
    + rewrite (do_nil_response _ _ _ HDo). intros [= <-].
      split; [done|]. by exists None, c.
  - intros (-> & [resp|] & c & HDo & HBody).
    + by apply (do_nil_body _ _ resp c).
    + by apply (do_nil_response _ _ c).
Qed.

(** X5: once the transport has answered, the bytes [do] returns are the
    bytes read from the body, with or without an error; and whenever [do]
    returns an error the client is left as the transport left it, its
    idle connections not closed. *)
Theorem do_keeps_bytes t req ans e0 c byts err t' :
  Do (gt_client t) req = (ans, e0, c) →
  do Constants t req = Returned ((byts, err), t') →
  (∀ resp, ans = Some resp → e0 = None →
     ∃ e, ReadAll (Body resp) = Returned (byts, e))
  ∧ (err ≠ None → t' = with_client Constants t c).
Proof.
  intros HDo. destruct ans as [resp|], e0 as [e|].
  - rewrite (do_transport_fails _ _ _ _ _ HDo). intros [= <- <- <-]. by split.
  - destruct (ReadAll_cases (Body resp)) as [[HBody _]|(b & e & HRead)].
    { by rewrite (do_nil_body _ _ _ _ HDo HBody). }
    destruct e as [e|].
    { rewrite (do_read_fails _ _ _ _ _ _ HDo HRead). intros [= <- <- <-].
      split; [|done]. intros ? [= <-] _. by eexists. }
    rewrite (do_after_read _ _ _ _ _ HDo HRead).
    assert (Hb : ∀ resp', Some resp = Some resp' → None = None (A:=error) →
                          ∃ e, ReadAll (Body resp') = Returned (b, e)).
    { intros ? [= <-] _. by eexists. }
    destruct (negb (StatusCode resp =? StatusOK)).
    { intros [= <- <- <-]. by split. }
    destruct (handleRPCError_returns b) as (r & -> & _).
    destruct r; intros [= <- <- <-]; by split.
  - rewrite (do_transport_fails _ _ _ _ _ HDo). intros [= <- <- <-]. by split.
  - by rewrite (do_nil_response _ _ _ HDo).
Qed.

End ExecutorPaths.

Section MalformedPayload.

Context {C : Type} `{!client C} {Constants : Type}.

Implicit Types (t : GoTezos (C:=C) Constants) (req : Request) (resp : Response).
Implicit Types (byts : string) (c : C).

(** X6: a 200-status body that holds the text [error] but is not a JSON
    array is reported as an error payload that does not decode: [do]
    returns the body and the decoding error wrapped as [could not
    unmarshal rpc error].  A JSON object that merely mentions [error] is
    such a body; its decoding error is the type error of an object. *)
Theorem do_malformed_error_payload t req resp c byts :
  Do (gt_client t) req = (Some resp, None, c) →
  ReadAll (Body resp) = Returned (byts, None) →
  StatusCode resp = StatusOK →
  Contains byts "error" = true →
  (∀ l, JSON.parse byts ≠ Some (JSON.VArray l)) →
  ∃ e, Unmarshal byts = ([], Some e)
       ∧ do Constants t req
         = Returned ((byts, Some (Wrapped (JSONError e) "could not unmarshal rpc error")),
                     with_client Constants t c)
       ∧ (∀ fields, JSON.parse byts = Some (JSON.VObject fields) →
            e = UnmarshalTypeError "object" "gotezos.RPCErrors" None).
Proof.
  intros HDo HRead HStatus HText HArr.
  pose proof (Unmarshal_error_text_nonempty byts HText) as Hne.
  rewrite (do_after_read _ _ _ _ _ HDo HRead), HStatus.
  unfold handleRPCError. rewrite HText.
  unfold Unmarshal in *.
  destruct (JSON.parse byts) as [v|]; [destruct v as [| | | |l|fields]|].
  - done.
  - eexists. split_and!; [done..|]. by intros ? [=].
  - eexists. split_and!; [done..|]. by intros ? [=].
  - eexists. split_and!; [done..|]. by intros ? [=].
  - by destruct (HArr l).
  - eexists. split_and!; [done..|]. by intros ? [=].
  - eexists. split_and!; [done..|]. by intros ? [=].
Qed.

End MalformedPayload.

(** ** The host normaliser: spellings of one host *)

(** X7: a result of [cleanseHost] that ends with no slash is left as it
    is by a second normalisation. *)
Theorem cleanseHost_idempotent (host r : string) :
  cleanseHost host = Returned r → HasSuffix r "/" = false → cleanseHost r = Returned r.
Proof.
  rewrite cleanseHost_unfold.
  destruct (last_byte host) as [c|]; [|done]. intros [= <-] Hslash.
  set (h := if Ascii.eqb c "/" then drop_last host else host) in *.
  pose proof (with_scheme_has_scheme h) as Hscheme.
  rewrite cleanseHost_unfold.
  destruct (last_byte (with_scheme h)) as [c'|] eqn:E.
  - destruct (Ascii.eqb_spec c' "/") as [->|_].
    + apply HasSuffix_slash in E. congruence.
    + by rewrite with_scheme_id.
  - apply last_byte_None in E. by rewrite E in Hscheme.
Qed.

Lemma cleanseHost_idempotent_witness :
  cleanseHost "http://node.example" = Returned "http://node.example".
Proof. apply (cleanseHost_idempotent "node.example/" "http://node.example"); reflexivity. Defined.

(** X8: a non-empty host without a scheme and without a trailing slash
    can be given with or without [http://] in front and with or without
    one slash behind: the four spellings are normalised to the same
    string; with [https://] in front the slash alone makes no
    difference. *)
Theorem cleanseHost_spellings (h : string) :
  h ≠ "" → HasSuffix h "/" = false → has_scheme h = false →
  cleanseHost h = Returned ("http://" +:+ h)
  ∧ cleanseHost (h +:+ "/") = Returned ("http://" +:+ h)
  ∧ cleanseHost ("http://" +:+ h) = Returned ("http://" +:+ h)
  ∧ cleanseHost ("http://" +:+ h +:+ "/") = Returned ("http://" +:+ h)
  ∧ cleanseHost ("https://" +:+ h) = Returned ("https://" +:+ h)
  ∧ cleanseHost ("https://" +:+ h +:+ "/") = Returned ("https://" +:+ h).
Proof.
  intros Hne Hslash Hscheme.
  destruct (last_byte h) as [c|] eqn:E; [|by apply last_byte_None in E].
  assert (Hc : Ascii.eqb c "/" = false).
  { apply Ascii.eqb_neq. intros ->. apply HasSuffix_slash in E. congruence. }
  assert (Hplain : ∀ p, has_scheme (p +:+ h) = true →
                        cleanseHost (p +:+ h) = Returned (p +:+ h)).
  { intros p Hp. rewrite cleanseHost_unfold, last_byte_app, E, Hc by done.
    by rewrite with_scheme_id. }
  assert (Hsl : ∀ p, has_scheme (p +:+ h) = true →
                     cleanseHost (p +:+ h +:+ "/") = Returned (p +:+ h)).
  { intros p Hp. rewrite <- app_assoc', cleanseHost_snoc, Ascii.eqb_refl.
    by rewrite with_scheme_id. }
  split_and!.
  - by rewrite cleanseHost_unfold, E, Hc, with_scheme_add.
  - by rewrite cleanseHost_snoc, Ascii.eqb_refl, with_scheme_add.
  - by apply Hplain.
  - by apply Hsl.
  - by apply Hplain.
  - by apply Hsl.
Qed.

Lemma cleanseHost_spellings_witness :
  cleanseHost "node.example" = Returned "http://node.example"
  ∧ cleanseHost "node.example/" = Returned "http://node.example"
  ∧ cleanseHost "http://node.example" = Returned "http://node.example"
  ∧ cleanseHost "http://node.example/" = Returned "http://node.example"
  ∧ cleanseHost "https://node.example" = Returned "https://node.example"
  ∧ cleanseHost "https://node.example/" = Returned "https://node.example".
Proof. apply (cleanseHost_spellings "node.example"); [discriminate|reflexivity..]. Defined.

(** ** The bootstrap sequence, on every path *)

Section BootstrapPaths.

Context {C : Type} `{!client C}.
Variables (Constants Block : Type) (Hash : Block → string).
Variable Head : GoTezos (C:=C) Constants → (option Block * option error) * C.
Variable GetConstants :
  GoTezos (C:=C) Constants → string → (option Constants * option error) * C.
Variable http_Client : C.

Local Abbreviation New' := (New Constants Block Hash Head GetConstants http_Client).

(** [New] on a host that [cleanseHost] accepts, by the answers of the two
    fetches. *)
Lemma New_cases host h :
  cleanseHost host = Returned h →
  New' host =
  match Head (mkGoTezos http_Client None h) with
  | (_, Some e, c) => Returned (Some (mkGoTezos c None h), Some (Wrapped e bootstrap_message))
  | (None, None, _) => Panic NilDereference
  | (Some block, None, c1) =>
      match GetConstants (mkGoTezos c1 None h) (Hash block) with
      | (_, Some e, c) =>
          Returned (Some (mkGoTezos c None h), Some (Wrapped e bootstrap_message))
      | (constants, None, c) => Returned (Some (mkGoTezos c constants h), None)
      end
  end.
Proof.
  intros Hh. unfold New. rewrite Hh. cbn [obind].
  destruct (Head _) as [[[block|] [e|]] c1]; try done.
  unfold with_client; cbn.
  by destruct (GetConstants _ _) as [[constants [e|]] c].
Qed.

Lemma cleanseHost_Panic host f : cleanseHost host = Panic f → host = "" ∧ f = IndexOutOfRange.
Proof.
  rewrite cleanseHost_unfold. destruct (last_byte host) eqn:E; [done|].
  intros [= <-]. by apply last_byte_None in E.
Qed.

(** X9: [New] returns a nil error exactly when the host is accepted, the
    head fetch succeeds and the constants fetch, made for the hash of
    that head, succeeds; the client returned then holds the normalised
    host, the constants fetched and the transport as the second fetch
    left it. *)
Theorem New_succeeds_iff host r :
  New' host = Returned (r, None)
  ↔ ∃ h block c1 constants c,
      cleanseHost host = Returned h
      ∧ Head (mkGoTezos http_Client None h) = (Some block, None, c1)
      ∧ GetConstants (mkGoTezos c1 None h) (Hash block) = (constants, None, c)
      ∧ r = Some (mkGoTezos c constants h).
Proof.
  split.
  - destruct (cleanseHost host) as [h|f] eqn:Hh; [|unfold New; by rewrite Hh].
    rewrite (New_cases _ _ Hh).
    destruct (Head _) as [[[block|] [e|]] c1] eqn:HHead; try done.
    destruct (GetConstants _ _) as [[constants [e|]] c] eqn:HConst; [done|].
    intros [= <-]. by exists h, block, c1, constants, c.
  - intros (h & block & c1 & constants & c & Hh & HHead & HConst & ->).
    by rewrite (New_cases _ _ Hh), HHead, HConst.
Qed.

(** X10: [New] panics in two cases only: on the empty host, with an index
    out of range, and when the head fetch returns a nil block together
    with a nil error, with a nil dereference. *)
Theorem New_panics_iff host f :
  New' host = Panic f
  ↔ (host = "" ∧ f = IndexOutOfRange)
    ∨ (∃ h c, cleanseHost host = Returned h
              ∧ Head (mkGoTezos http_Client None h) = (None, None, c)
              ∧ f = NilDereference).
Proof.
  split.
  - destruct (cleanseHost host) as [h|f'] eqn:Hh.
    + rewrite (New_cases _ _ Hh).
      destruct (Head _) as [[[block|] [e|]] c1] eqn:HHead; try done.
      * by destruct (GetConstants _ _) as [[constants [e|]] c].
      * intros [= <-]. right. by exists h, c1.
    + unfold New. rewrite Hh. intros [= <-]. left. by apply cleanseHost_Panic.
  - intros [[-> ->]|(h & c & Hh & HHead & ->)]; [done|].
    by rewrite (New_cases _ _ Hh), HHead.
Qed.

(** X11: whenever [New] returns, the client is not nil and holds the
    normalised host, which starts with [http://] or [https://]; and when
    the error is not nil the cached constants are unset and the error is
    a cause wrapped under the bootstrap message. *)
Theorem New_returned_client (input : string) r err :
  New' input = Returned (r, err) →
  ∃ gt, r = Some gt
        ∧ cleanseHost input = Returned (host gt)
        ∧ has_scheme (host gt) = true
        ∧ (err ≠ None →
             networkConstants gt = None
             ∧ ∃ cause, err = Some (Wrapped cause bootstrap_message)).
Proof.
  destruct (cleanseHost input) as [h|f] eqn:Hh; [|unfold New; by rewrite Hh].
  assert (Hscheme : has_scheme h = true).
  { rewrite cleanseHost_unfold in Hh. destruct (last_byte input); [|done].
    injection Hh as <-. apply with_scheme_has_scheme. }
  rewrite (New_cases _ _ Hh).
  destruct (Head _) as [[[block|] [e|]] c1]; try done.
  - intros [= <- <-]. eexists. split_and!; [done..|]. intros _. split; [done|]. by eexists.
  - destruct (GetConstants _ _) as [[constants [e|]] c]; intros [= <- <-].
    + eexists. split_and!; [done..|]. intros _. split; [done|]. by eexists.
    + eexists. by split_and!.
  - intros [= <- <-]. eexists. split_and!; [done..|]. intros _. split; [done|]. by eexists.
Qed.

End BootstrapPaths.

Lemma New_returned_client_witness :
  ∃ gt : GoTezos (C:=mock) unit,
    Some (mkGoTezos idle None "http://node.example") = Some gt
        ∧ cleanseHost "node.example" = Returned (host gt)
        ∧ has_scheme (host gt) = true
        ∧ (Some (Wrapped refused bootstrap_message) ≠ None →
             networkConstants gt = None
             ∧ ∃ cause, Some (Wrapped refused bootstrap_message)
                        = Some (Wrapped cause bootstrap_message)).
Proof.
  apply (New_returned_client unit string id head_down constants_down idle "node.example").
  reflexivity.
Defined.

(** ** Query strings: escaping and parsing back *)

Section Escaping.

Implicit Types (s t : string) (c x : ascii) (P : ascii → bool).

Lemma all_chars_app P s t : all_chars P (s +:+ t) = all_chars P s && all_chars P t.
Proof. induction s as [|c s IH]; simpl; [done|]. by rewrite IH, andb_assoc. Qed.

Lemma all_chars_occurs P s x : all_chars P s = true → P x = false → occurs x s = false.
Proof.
  intros Hall Hx. induction s as [|c s IH]; [done|].
  simpl in *. apply andb_true_iff in Hall as [Hc Hs]. rewrite (IH Hs), orb_false_r.
  apply Ascii.eqb_neq. intros ->. congruence.
Qed.

Lemma all_chars_impl P (Q : ascii → bool) s :
  (∀ c, P c = true → Q c = true) → all_chars P s = true → all_chars Q s = true.
Proof.
  intros HPQ. induction s as [|c s IH]; [done|]. simpl.
  intros [Hc Hs]%andb_true_iff. by rewrite (HPQ c Hc), IH.
Qed.

Lemma QueryEscape_cons c s :
  url.QueryEscape (String c s) = url.QueryEscape (String c "") +:+ url.QueryEscape s.
Proof. simpl. by repeat case_match. Qed.

Lemma QueryEscape_char_escaped c :
  all_chars escaped_char (url.QueryEscape (String c "")) = true.
Proof. destruct c as [[] [] [] [] [] [] [] []]; vm_compute; reflexivity. Qed.

Lemma QueryEscape_escaped s : all_chars escaped_char (url.QueryEscape s) = true.
Proof.
  induction s as [|c s IH]; [done|].
  by rewrite QueryEscape_cons, all_chars_app, QueryEscape_char_escaped, IH.
Qed.

Lemma QueryUnescape_char c t :
  url.QueryUnescape (url.QueryEscape (String c "") +:+ t) = String c <$> url.QueryUnescape t.
Proof. destruct c as [[] [] [] [] [] [] [] []]; reflexivity. Qed.

(** Unescaping an escaped string gives the string back. *)
Lemma QueryUnescape_QueryEscape s : url.QueryUnescape (url.QueryEscape s) = Some s.
Proof.
  induction s as [|c s IH]; [done|].
  by rewrite QueryEscape_cons, QueryUnescape_char, IH.
Qed.

Lemma QueryEscape_no_separator s x :
  escaped_char x = false → occurs x (url.QueryEscape s) = false.
Proof. intros Hx. by apply (all_chars_occurs escaped_char), Hx; [apply QueryEscape_escaped]. Qed.

Lemma occurs_Contains s c r : occurs c s = false → Contains s (String c r) = false.
Proof.
  intros Hc. apply not_true_is_false. intros Hin%Contains_occurs. congruence.
Qed.

Lemma split_go_no_separator sep cur s t :
  occurs sep s = false →
  url.split_go sep cur (s +:+ t) = url.split_go sep (cur +:+ s) t.
Proof.
  revert cur. induction s as [|c s IH]; intros cur Hs; simpl.
  - by rewrite app_empty_r.
  - simpl in Hs. apply orb_false_iff in Hs as [Hc Hs].
    rewrite Hc, IH by done. by rewrite app_assoc'.
Qed.

Lemma split_go_separator sep cur t :
  url.split_go sep cur (String sep "" +:+ t) = cur :: url.split_go sep "" t.
Proof. simpl. by rewrite Ascii.eqb_refl. Qed.

Lemma Join_cons_cons (x y : string) (l : list string) (sep : string) :
  Join (x :: y :: l) sep = x +:+ sep +:+ Join (y :: l) sep.
Proof. done. Qed.

Lemma split_go_Join sep (cur x : string) (l : list string) :
  Forall (λ y, occurs sep y = false) (x :: l) →
  url.split_go sep cur (Join (x :: l) (String sep "")) = (cur +:+ x) :: l.
Proof.
  revert cur x. induction l as [|y l IH]; intros cur x Hall.
  - apply Forall_cons in Hall as [Hx _].
    rewrite <- (app_empty_r x) at 1. cbn [Join].
    by rewrite split_go_no_separator.
  - apply Forall_cons in Hall as [Hx Hall].
    rewrite Join_cons_cons, split_go_no_separator, split_go_separator by done.
    f_equal. by rewrite IH.
Qed.

Lemma cut_eq_app s t : occurs "=" s = false → url.cut_eq (s +:+ String "=" t) = (s, t).
Proof.
  induction s as [|c s IH]; intros Hs; simpl; [done|].
  simpl in Hs. apply orb_false_iff in Hs as [Hc Hs]. by rewrite Hc, IH.
Qed.

End Escaping.

Section QueryRoundTrip.

Implicit Types (v : url.Values) (opts : list rpcOptions).
Implicit Types (k : string) (l : list (string * string)) (ks : list string).

Lemma parse_piece_encode_pair v (p : string * string) :
  url.parse_piece v (url.encode_pair p) = url.Add p.1 p.2 v.
Proof.
  unfold url.parse_piece, url.encode_pair.
  assert (Hsemi : Contains (url.QueryEscape p.1 +:+ "=" +:+ url.QueryEscape p.2) ";" = false).
  { apply occurs_Contains. rewrite !occurs_app, !QueryEscape_no_separator by done. done. }
  rewrite Hsemi.
  assert (Hne : String.eqb (url.QueryEscape p.1 +:+ "=" +:+ url.QueryEscape p.2) "" = false).
  { by destruct (url.QueryEscape p.1). }
  rewrite Hne.
  change ("=" +:+ url.QueryEscape p.2) with (String "=" (url.QueryEscape p.2)).
  rewrite cut_eq_app by by apply QueryEscape_no_separator.
  by rewrite !QueryUnescape_QueryEscape.
Qed.

Lemma encode_pair_no_ampersand (p : string * string) :
  occurs "&" (url.encode_pair p) = false.
Proof.
  unfold url.encode_pair. by rewrite !occurs_app, !QueryEscape_no_separator.
Qed.

(** Parsing what [Encode] wrote adds the pairs written, in order. *)
Lemma ParseQuery_Encode_pairs v :
  url.ParseQuery (url.Encode v) = add_pairs ∅ (url.encoded_pairs v).
Proof.
  unfold url.ParseQuery, url.Encode.
  destruct (url.encoded_pairs v) as [|p l]; [done|].
  change (map url.encode_pair (p :: l)) with (url.encode_pair p :: map url.encode_pair l).
  rewrite split_go_Join.
  - change (("" +:+ url.encode_pair p) :: map url.encode_pair l)
      with (map url.encode_pair (p :: l)).
    unfold add_pairs. generalize (∅ : url.Values). generalize (p :: l). clear.
    intros l. induction l as [|p l IH]; intros q; [done|].
    simpl. by rewrite parse_piece_encode_pair, IH.
  - apply Forall_forall. intros y Hy.
    change (url.encode_pair p :: map url.encode_pair l)
      with (map url.encode_pair (p :: l)) in Hy.
    apply list_elem_of_fmap in Hy as (p' & -> & _). apply encode_pair_no_ampersand.
Qed.

Lemma add_pairs_lookup v l k :
  add_pairs v l !! k
  = match (with_key k l).*2 with
    | [] => v !! k
    | values => Some ((v !!! k) ++ values)
    end.
Proof.
  revert v. induction l as [|p l IH]; intros v; [done|].
  change (add_pairs v (p :: l)) with (add_pairs (url.Add p.1 p.2 v) l).
  rewrite IH. unfold with_key. rewrite filter_cons.
  destruct (decide (p.1 = k)) as [<-|Hne].
  - rewrite Add_lookup_total, decide_True by done. unfold url.Add.
    rewrite lookup_insert_eq. cbn [fmap list_fmap snd].
    fold (with_key p.1 l).
    destruct ((with_key p.1 l).*2) as [|x values]; [done|].
    by rewrite <- app_assoc.
  - rewrite Add_lookup_total, decide_False by done. unfold url.Add.
    by rewrite lookup_insert_ne.
Qed.

Lemma add_options_add_pairs v opts : add_options v opts = add_pairs v (option_pairs opts).
Proof.
  revert v. induction opts as [|opt opts IH]; intros v; [done|].
  rewrite add_options_cons, IH. done.
Qed.

Lemma with_key_pairs_of v k k' :
  with_key k (url.pairs_of v k') = if decide (k = k') then url.pairs_of v k' else [].
Proof.
  unfold url.pairs_of, with_key. induction (v !!! k') as [|x values IH].
  - by case_decide.
  - cbn [map]. rewrite filter_cons. cbn [fst]. rewrite IH.
    destruct (decide (k' = k)) as [->|Hne].
    + by case_decide.
    + case_decide; [|done]. by subst.
Qed.

Lemma with_key_encoded_pairs v k : with_key k (url.encoded_pairs v) = url.pairs_of v k.
Proof.
  unfold url.encoded_pairs.
  assert (Hks : ∀ ks, NoDup ks →
            with_key k (flat_map (url.pairs_of v) ks)
            = if decide (k ∈ ks) then url.pairs_of v k else []).
  { induction 1 as [|k' ks Hnotin Hnd IH]; simpl; [done|].
    rewrite with_key_app, IH, with_key_pairs_of.
    destruct (decide (k = k')) as [->|Hne].
    - rewrite (decide_False (P := k' ∈ ks)) by done.
      rewrite decide_True by left. apply app_nil_r.
    - destruct (decide (k ∈ ks)) as [Hin|Hin].
      + by rewrite decide_True by by right.
      + rewrite decide_False; [done|]. by intros [|]%elem_of_cons. }
  rewrite Hks by apply sorted_keys_NoDup.
  case_decide as Hk; [done|].
  rewrite sorted_keys_elem in Hk. unfold url.pairs_of.
  rewrite lookup_total_alt. destruct (v !! k); [|done]. by destruct Hk.
Qed.

Lemma pairs_of_values v k : (url.pairs_of v k).*2 = v !!! k.
Proof.
  unfold url.pairs_of. induction (v !!! k) as [|x values IH]; [done|].
  cbn. by f_equal.
Qed.

(** A query without empty lists of values is what parsing its encoding
    gives. *)
Lemma ParseQuery_Encode v : no_empty_values v → url.ParseQuery (url.Encode v) = v.
Proof.
  intros Hv. rewrite ParseQuery_Encode_pairs. apply map_eq. intros k.
  rewrite add_pairs_lookup, with_key_encoded_pairs, pairs_of_values.
  rewrite lookup_total_alt, lookup_empty.
  destruct (v !! k) as [values|] eqn:E; [|done].
  simpl. destruct values; [|done]. by destruct (Hv k [] E).
Qed.

Lemma no_empty_values_Add v key value :
  no_empty_values v → no_empty_values (url.Add key value v).
Proof.
  intros Hv k values. unfold url.Add.
  destruct (decide (key = k)) as [->|Hne].
  - rewrite lookup_insert_eq. intros [= <-]. by destruct (v !!! k).
  - rewrite lookup_insert_ne by done. apply Hv.
Qed.

Lemma no_empty_values_add_options v opts :
  no_empty_values v → no_empty_values (add_options v opts).
Proof.
  revert v. induction opts as [|opt opts IH]; intros v Hv; [done|].
  rewrite add_options_cons. by apply IH, no_empty_values_Add.
Qed.

Lemma no_empty_values_ParseQuery (query : string) : no_empty_values (url.ParseQuery query).
Proof.
  unfold url.ParseQuery.
  assert (H0 : no_empty_values ∅) by (intros k values; by rewrite lookup_empty).
  revert H0. generalize (∅ : url.Values). generalize (url.split_go "&" "" query).
  intros l. induction l as [|piece l IH]; intros v Hv; [done|].
  simpl. apply IH. unfold url.parse_piece.
  repeat case_match; try done. by apply no_empty_values_Add.
Qed.

End QueryRoundTrip.

Lemma all_chars_Join (P : ascii → bool) (l : list string) (sep : string) :
  Forall (λ x, all_chars P x = true) l → all_chars P sep = true →
  all_chars P (Join l sep) = true.
Proof.
  intros Hl Hsep. induction Hl as [|x l Hx Hl IH]; [done|].
  destruct l as [|y l]; [done|].
  rewrite Join_cons_cons, !all_chars_app, Hx, Hsep. by rewrite IH.
Qed.

Lemma Query_constructQueryParams (req : Request) (opts : list rpcOptions) :
  url.Query (URL (constructQueryParams req opts)) = add_options (url.Query (URL req)) opts.
Proof.
  unfold constructQueryParams, url.Query at 1. cbn [URL url.RawQuery].
  apply ParseQuery_Encode, no_empty_values_add_options, no_empty_values_ParseQuery.
Qed.

(** X12: the query [constructQueryParams] writes parses back to the
    request's own query with the options added in order, whatever query
    the request had: under every key, the values the request had, then
    the values of the options with that key in the order given. *)
Theorem constructQueryParams_parses_back (req : Request) (opts : list rpcOptions) :
  url.Query (URL (constructQueryParams req opts)) = add_options (url.Query (URL req)) opts
  ∧ ∀ key, url.Query (URL (constructQueryParams req opts)) !!! key
           = (url.Query (URL req) !!! key) ++ (with_key key (option_pairs opts)).*2.
Proof.
  split; [apply Query_constructQueryParams|].
  intros key. rewrite Query_constructQueryParams. apply add_options_lookup.
Qed.

Lemma add_options_app (v : url.Values) (opts1 opts2 : list rpcOptions) :
  add_options v (opts1 ++ opts2) = add_options (add_options v opts1) opts2.
Proof. apply foldl_app. Qed.

(** X13: attaching options in two calls is attaching them all in one:
    the request is the same. *)
Theorem constructQueryParams_app (req : Request) (opts1 opts2 : list rpcOptions) :
  constructQueryParams (constructQueryParams req opts1) opts2
  = constructQueryParams req (opts1 ++ opts2).
Proof.
  unfold constructQueryParams at 1. rewrite Query_constructQueryParams.
  unfold constructQueryParams. cbn [Method URL Payload url.Location].
  by rewrite add_options_app.
Qed.

Lemma QueryEscape_percent_byte (c : ascii) : url.QueryEscape (String c "") = percent_byte c.
Proof. destruct c as [[] [] [] [] [] [] [] []]; vm_compute; reflexivity. Qed.

Lemma QueryEscape_percent_encode (s : string) : url.QueryEscape s = percent_encode s.
Proof.
  induction s as [|c s IH]; [done|].
  rewrite QueryEscape_cons, QueryEscape_percent_byte, IH. done.
Qed.

Lemma query_char_query_byte (c : ascii) : query_char c = true → query_byte c = true.
Proof. destruct c as [[] [] [] [] [] [] [] []]; vm_compute; done. Qed.

(** X14: the query written is the pairs of the request's query with the
    options added, keys ascending, each pair written [key=value] with the
    key and the value percent-encoded, and the pairs joined by [&].  In
    a key or a value a letter, a digit, [-], [_], [.] and [~] are kept, a
    space becomes [+] and every other byte becomes [%] and two upper-case
    hexadecimal digits, from which the key or value is read back; so
    the query holds no byte other than those kept, [%], [+], [=] and
    [&]. *)
Theorem constructQueryParams_query_chars (req : Request) (opts : list rpcOptions) :
  let written := url.RawQuery (URL (constructQueryParams req opts)) in
  written = Join (map percent_pair
                    (url.encoded_pairs (add_options (url.Query (URL req)) opts))) "&"
  ∧ all_chars query_byte written = true
  ∧ ∀ s, url.QueryUnescape (percent_encode s) = Some s.
Proof.
  cbv zeta. split_and!.
  - unfold constructQueryParams. cbn [URL url.RawQuery]. unfold url.Encode.
    f_equal. apply map_ext. intros p. unfold url.encode_pair, percent_pair.
    by rewrite !QueryEscape_percent_encode.
  - unfold constructQueryParams. cbn [URL url.RawQuery]. unfold url.Encode.
    apply all_chars_Join; [|done].
    apply Forall_forall. intros x (p & -> & _)%list_elem_of_fmap.
    assert (Hesc : ∀ s, all_chars query_byte (url.QueryEscape s) = true).
    { intros s. apply (all_chars_impl escaped_char); [|apply QueryEscape_escaped].
      intros c Hc. apply query_char_query_byte. unfold query_char. by rewrite Hc. }
    unfold url.encode_pair. by rewrite !all_chars_app, !Hesc.
  - intros s. rewrite <- QueryEscape_percent_encode. apply QueryUnescape_QueryEscape.
Qed.

Example percent_encode_example : percent_encode "block id/7~x&y" = "block+id%2F7~x%26y".
Proof. vm_compute. reflexivity. Qed.

(** ** The client facade *)

Section FacadeProperties.

Context {C : Type} `{!client C}.
Variable Constants : Type.
Variable Parse : string → url.URL + error.

Implicit Types (t : GoTezos (C:=C) Constants) (path body : string) (opts : list rpcOptions).

(** X15: when the host followed by the path is not a URL, [get], [post]
    and [delete] return no bytes and the parse error wrapped as [failed
    to construct request]; the client is returned as it was, no request
    having been given to the transport. *)
Theorem facade_construction_error t path body opts e :
  Parse (host t +:+ path) = inr e →
  let failure :=
    Returned (("", Some (Wrapped e "failed to construct request")), t) in
  get Constants Parse t path opts = failure
  ∧ post Constants Parse t path body opts = failure
  ∧ delete Constants Parse t path opts = failure.
Proof.
  intros HParse. unfold get, post, delete, NewRequest. by rewrite HParse.
Qed.

(** X16: when the host followed by the path is the URL [u], the three
    methods give the transport executor one request each, with the same
    URL: the location of [u] and a query that parses back to the query of
    [u] with the options added.  The requests differ in the method, and
    in the payload, which is the body for [post] and empty otherwise. *)
Theorem facade_request t path body opts u :
  Parse (host t +:+ path) = inl u →
  ∃ query,
    url.ParseQuery query = add_options (url.Query u) opts
    ∧ get Constants Parse t path opts
      = do Constants t {| Method := "GET";
                          URL := {| url.Location := url.Location u; url.RawQuery := query |};
                          Payload := "" |}
    ∧ post Constants Parse t path body opts
      = do Constants t {| Method := "POST";
                          URL := {| url.Location := url.Location u; url.RawQuery := query |};
                          Payload := body |}
    ∧ delete Constants Parse t path opts
      = do Constants t {| Method := "DELETE";
                          URL := {| url.Location := url.Location u; url.RawQuery := query |};
                          Payload := "" |}.
Proof.
  intros HParse. exists (url.Encode (add_options (url.Query u) opts)). split.
  - apply ParseQuery_Encode, no_empty_values_add_options, no_empty_values_ParseQuery.
  - unfold get, post, delete, NewRequest. by rewrite HParse.
Qed.

Lemma do_frame t req r t' :
  do Constants t req = Returned (r, t') →
  host t' = host t ∧ networkConstants t' = networkConstants t.
Proof.
  unfold do. destruct (Do (gt_client t) req) as [[[resp|] [e|]] c]; try by intros [= <- <-].
  destruct (ReadAll (Body resp)) as [[b [e|]]|]; cbn [obind]; [by intros [= <- <-]| |done].
  destruct (negb (StatusCode resp =? StatusOK)); [by intros [= <- <-]|].
  destruct (handleRPCError b) as [[e|]|]; try done; by intros [= <- <-].
Qed.

(** X17: [do], [get], [post] and [delete] leave the host and the cached
    constants of the client as they were: a call changes the transport
    at most. *)
Theorem calls_keep_host_and_constants t req path body opts r t' :
  do Constants t req = Returned (r, t') ∨ get Constants Parse t path opts = Returned (r, t')
  ∨ post Constants Parse t path body opts = Returned (r, t')
  ∨ delete Constants Parse t path opts = Returned (r, t') →
  host t' = host t ∧ networkConstants t' = networkConstants t.
Proof.
  assert (Hfacade : ∀ method payload,
            (let '(req, err) := NewRequest Parse method (host t +:+ path) payload in
             match err with
             | Some _ => Returned (("", Wrap err "failed to construct request"), t)
             | None =>
                 match req with
                 | None => Panic NilDereference
                 | Some req => do Constants t (constructQueryParams req opts)
                 end
             end) = Returned (r, t') →
            host t' = host t ∧ networkConstants t' = networkConstants t).
  { intros method payload. unfold NewRequest.
    destruct (Parse (host t +:+ path)); [apply do_frame|by intros [= <- <-]]. }
  intros [Hdo|[Hget|[Hpost|Hdelete]]].
  - by eapply do_frame.
  - by apply (Hfacade MethodGet "").
  - by apply (Hfacade MethodPost body).
  - by apply (Hfacade MethodDelete "").
Qed.

End FacadeProperties.

(** ** The error payload: rendering and decoding *)

Section Rendering.

Import JSON.

Implicit Types (s rest raw : string) (st : list frame) (e : RPCError) (l : RPCErrors).

Lemma run_cons (s0 : state) (c : ascii) rest :
  run s0 (String c rest) = match step s0 c with Some s1 => run s1 rest | None => None end.
Proof. done. Qed.

Lemma run_app (s0 : state) s rest :
  run s0 (s +:+ rest) = match run s0 s with Some s1 => run s1 rest | None => None end.
Proof.
  revert s0. induction s as [|c s IH]; intros s0; simpl; [done|].
  destruct (step s0 c); [apply IH|done].
Qed.

Lemma run_InString_plain raw st s :
  all_chars plain_char s = true → run (InString raw, st) s = Some (InString (raw +:+ s), st).
Proof.
  revert raw. induction s as [|c s IH]; intros raw Hs.
  - by rewrite app_empty_r.
  - simpl in Hs. apply andb_true_iff in Hs as [Hc Hs].
    unfold plain_char in Hc.
    apply andb_true_iff in Hc as [[[Hlo Hhi]%andb_true_iff Hq%negb_true_iff]%andb_true_iff
                                    Hb%negb_true_iff].
    rewrite run_cons. cbn [step]. rewrite Hq, Hb.
    destruct (Z.ltb_spec (code c) 32) as [Hlt|_]; [apply Z.leb_le in Hlo; lia|].
    rewrite IH by done. by rewrite app_assoc'.
Qed.

Lemma unquote_plain s : all_chars plain_char s = true → unquote s = s.
Proof.
  induction s as [|c s IH]; intros Hs; [done|].
  simpl in Hs. apply andb_true_iff in Hs as [Hc Hs].
  unfold plain_char in Hc.
  apply andb_true_iff in Hc as [[[Hlo Hhi]%andb_true_iff Hq%negb_true_iff]%andb_true_iff
                                  Hb%negb_true_iff].
  cbn [unquote]. rewrite Hb, Hhi. by rewrite IH.
Qed.

Lemma quoted_app s rest : quoted s +:+ rest = String dquote (s +:+ String dquote rest).
Proof. unfold quoted. by rewrite app_assoc'. Qed.

(** A string literal without escapes, read from a state in which a
    double quote opens a string. *)
Lemma run_quoted (s0 : state) st s rest :
  step s0 dquote = Some (InString "", st) →
  all_chars plain_char s = true →
  run s0 (quoted s +:+ rest)
  = match complete (VString s) st with Some s1 => run s1 rest | None => None end.
Proof.
  intros Hopen Hs. rewrite quoted_app, run_cons, Hopen.
  rewrite run_app, run_InString_plain by done.
  rewrite run_cons. cbn [step String.append].
  rewrite Ascii.eqb_refl. by rewrite unquote_plain.
Qed.

Lemma run_char (s0 : state) (c : ascii) rest :
  run s0 (String c "" +:+ rest)
  = match step s0 c with Some s1 => run s1 rest | None => None end.
Proof. done. Qed.

(** A rendered entry, read as an element of an array. *)
Lemma run_entry (m : mode) (els : list value) e rest :
  m = BeginValue ∨ m = BeginValueOrEmpty →
  plain_entry e = true →
  run (m, [FArray els]) (render_entry e +:+ rest)
  = run (EndValue, [FArray (entry_value e :: els)]) rest.
Proof.
  intros Hm [HK HE]%andb_true_iff. unfold render_entry. rewrite !app_assoc'.
  rewrite run_char.
  assert (step (m, [FArray els]) "{"
          = Some (BeginStringOrEmpty, [FObject [] None; FArray els])) as ->.
  { by destruct Hm as [-> | ->]. }
  rewrite (run_quoted _ [FObject [] None; FArray els]) by done. cbn [complete].
  rewrite run_char. cbn [step end_value is_space Ascii.eqb Bool.eqb orb].
  rewrite (run_quoted _ [FObject [] (Some "kind"); FArray els]) by done. cbn [complete].
  rewrite run_char. cbn [step end_value is_space Ascii.eqb Bool.eqb orb].
  rewrite (run_quoted _ [FObject [("kind", VString (Kind e))] None; FArray els]) by done.
  cbn [complete].
  rewrite run_char. cbn [step end_value is_space Ascii.eqb Bool.eqb orb].
  rewrite (run_quoted _ [FObject [("kind", VString (Kind e))] (Some "error"); FArray els])
    by done.
  cbn [complete].
  rewrite run_char. cbn [step end_value is_space Ascii.eqb Bool.eqb orb].
  done.
Qed.

(** The rendered entries of a list, read as the elements of an array. *)
Lemma run_entries (m : mode) (els : list value) e l rest :
  m = BeginValue ∨ m = BeginValueOrEmpty →
  Forall (λ e, plain_entry e = true) (e :: l) →
  run (m, [FArray els]) (Join (map render_entry (e :: l)) "," +:+ rest)
  = run (EndValue, [FArray (rev (map entry_value (e :: l)) ++ els)]) rest.
Proof.
  revert m els e. induction l as [|e' l IH]; intros m els e Hm Hall.
  - apply Forall_cons in Hall as [He _]. cbn [map Join]. by rewrite run_entry.
  - apply Forall_cons in Hall as [He Hall].
    change (map render_entry (e :: e' :: l))
      with (render_entry e :: render_entry e' :: map render_entry l).
    rewrite Join_cons_cons, !app_assoc', run_entry by done.
    rewrite run_char. cbn [step end_value is_space Ascii.eqb Bool.eqb orb].
    change (render_entry e' :: map render_entry l) with (map render_entry (e' :: l)).
    rewrite IH by auto.
    do 3 f_equal. cbn [map rev]. by rewrite <- !app_assoc.
Qed.

Lemma parse_render_entries l :
  Forall (λ e, plain_entry e = true) l →
  parse (render_entries l) = Some (VArray (map entry_value l)).
Proof.
  intros Hall. unfold parse, render_entries. destruct l as [|e l]; [done|].
  rewrite run_char.
  assert (step (BeginValue, []) "[" = Some (BeginValueOrEmpty, [FArray []])) as -> by done.
  rewrite run_entries by auto.
  rewrite run_cons. cbn [step end_value is_space Ascii.eqb Bool.eqb orb complete run eof].
  by rewrite app_nil_r, rev_involutive.
Qed.

Lemma decode_rendered_entries (saved : option json_error) l :
  decode_elements saved (map entry_value l) = (l, saved).
Proof.
  revert saved. induction l as [|[K E] l IH]; intros saved; [done|].
  cbn [map decode_elements].
  assert (decode_element saved (entry_value {| Kind := K; Error := E |})
          = ({| Kind := K; Error := E |}, saved)) as -> by done.
  by rewrite IH.
Qed.

Lemma Contains_app_l s rest x : Contains s x = true → Contains (s +:+ rest) x = true.
Proof.
  intros (a & b & ->)%Contains_spec. apply Contains_spec. exists a, (b +:+ rest).
  by rewrite !app_assoc'.
Qed.

Lemma Contains_app_r s rest x : Contains rest x = true → Contains (s +:+ rest) x = true.
Proof.
  intros (a & b & ->)%Contains_spec. apply Contains_spec. exists (s +:+ a), b.
  by rewrite !app_assoc'.
Qed.

Lemma render_entries_error_text e l : Contains (render_entries (e :: l)) "error" = true.
Proof.
  unfold render_entries. apply Contains_app_r, Contains_app_l.
  assert (Contains (render_entry e) "error" = true).
  { unfold render_entry. do 5 apply Contains_app_r. by apply Contains_app_l. }
  destruct l as [|e' l]; [done|].
  change (map render_entry (e :: e' :: l))
    with (render_entry e :: render_entry e' :: map render_entry l).
  rewrite Join_cons_cons. by apply Contains_app_l.
Qed.

End Rendering.

Lemma Unmarshal_rendered (l : RPCErrors) :
  Forall (λ e, plain_entry e = true) l → Unmarshal (render_entries l) = (l, None).
Proof.
  intros Hall. unfold Unmarshal. rewrite parse_render_entries by done.
  apply decode_rendered_entries.
Qed.

Lemma handleRPCError_rendered (e : RPCError) (rest : RPCErrors) :
  Forall (λ e, plain_entry e = true) (e :: rest) →
  handleRPCError (render_entries (e :: rest))
  = Returned (Some (Errorf ("rpc error (" +:+ Kind e +:+ "): " +:+ Error e))).
Proof.
  intros Hall. unfold handleRPCError.
  by rewrite render_entries_error_text, Unmarshal_rendered.
Qed.

(** X18: the payload rendered from a list of entries whose strings are
    printable ASCII without double quote and backslash decodes into that
    list with no error; and when the list is not empty [handleRPCError]
    reports the first entry of the list. *)
Theorem rendered_payload_decodes (l : RPCErrors) :
  Forall (λ e, plain_entry e = true) l →
  Unmarshal (render_entries l) = (l, None)
  ∧ ∀ e rest, l = e :: rest →
      handleRPCError (render_entries l)
      = Returned (Some (Errorf ("rpc error (" +:+ Kind e +:+ "): " +:+ Error e))).
Proof.
  intros Hall. split; [by apply Unmarshal_rendered|].
  intros e rest ->. by apply handleRPCError_rendered.
Qed.

Lemma rendered_payload_decodes_witness :
  Unmarshal example_body = ([{| Kind := "permanent"; Error := "boom" |}], None)
  ∧ ∀ e rest, [{| Kind := "permanent"; Error := "boom" |}] = e :: rest →
      handleRPCError example_body
      = Returned (Some (Errorf ("rpc error (" +:+ Kind e +:+ "): " +:+ Error e))).
Proof.
  apply (rendered_payload_decodes [{| Kind := "permanent"; Error := "boom" |}]).
  repeat constructor.
Defined.

Section RenderedPayload.

Context {C : Type} `{!client C} {Constants : Type}.

Implicit Types (t : GoTezos (C:=C) Constants) (req : Request) (resp : Response).

(** X21: when the node answers 200 with the payload rendered from the
    entries [e :: rest], their strings printable ASCII without double
    quote and backslash, [do] returns that payload together with the
    error [rpc error (kind): error] of the first entry [e]. *)
Theorem do_reports_rendered_payload t req resp c (e : RPCError) (rest : RPCErrors) :
  Do (gt_client t) req = (Some resp, None, c) →
  ReadAll (Body resp) = Returned (render_entries (e :: rest), None) →
  StatusCode resp = StatusOK →
  Forall (λ e, plain_entry e = true) (e :: rest) →
  do Constants t req
  = Returned ((render_entries (e :: rest),
               Some (Errorf ("rpc error (" +:+ Kind e +:+ "): " +:+ Error e))),
              with_client Constants t c).
Proof.
  intros HDo HRead HStatus Hall.
  rewrite (do_after_read _ _ _ _ _ HDo HRead), HStatus.
  by rewrite handleRPCError_rendered.
Qed.

End RenderedPayload.

Lemma do_reports_rendered_payload_witness :
  do unit (mock_GoTezos (answer 200 example_body)) head_request
  = Returned ((render_entries [{| Kind := "permanent"; Error := "boom" |}],
               Some (Errorf ("rpc error (" +:+ "permanent" +:+ "): " +:+ "boom"))),
              with_client unit (mock_GoTezos (answer 200 example_body))
                (mkMock (answer 200 example_body) [head_request] 0)).
Proof.
  apply (do_reports_rendered_payload (mock_GoTezos (answer 200 example_body)) head_request
           {| StatusCode := 200; Body := Some (Chunk example_body EOF) |}
           (mkMock (answer 200 example_body) [head_request] 0)
           {| Kind := "permanent"; Error := "boom" |} []);
    try reflexivity.
  repeat constructor.
Defined.

(** ** Errors by their text *)

Lemma handleRPCError_error_shape (body : string) (err : error) :
  handleRPCError body = Returned (Some err) →
  (∃ e, err = Wrapped (JSONError e) "could not unmarshal rpc error")
  ∨ (∃ e0, err = Errorf ("rpc error (" +:+ Kind e0 +:+ "): " +:+ Error e0)).
Proof.
  unfold handleRPCError. destruct (Contains body "error"); [|done].
  destruct (Unmarshal body) as [[|e0 rest] [e|]]; try done; intros [= <-]; eauto.
Qed.

Section ErrorTexts.

Context {C : Type} `{!client C} {Constants : Type}.

Implicit Types (t : GoTezos (C:=C) Constants) (req : Request).

(** X19: the message of an error [do] returns starts in one of five
    ways, one for each place of [do] and [handleRPCError] that makes an
    error. *)
Theorem do_error_messages t req byts err t' :
  do Constants t req = Returned ((byts, Some err), t') →
  HasPrefix (message err) "failed to complete request: " = true
  ∨ HasPrefix (message err) "could not read response body: " = true
  ∨ HasPrefix (message err) "response returned code " = true
  ∨ HasPrefix (message err) "could not unmarshal rpc error: " = true
  ∨ HasPrefix (message err) "rpc error (" = true.
Proof.
  destruct (Do (gt_client t) req) as [[[resp|] [e|]] c] eqn:HDo.
  - rewrite (do_transport_fails _ _ _ _ _ HDo). intros [= <- <- <-]. left.
    apply HasPrefix_spec; eexists; reflexivity.
  - destruct (ReadAll_cases (Body resp)) as [[HBody _]|(b & e & HRead)].
    { by rewrite (do_nil_body _ _ _ _ HDo HBody). }
    destruct e as [e|].
    { rewrite (do_read_fails _ _ _ _ _ _ HDo HRead). intros [= <- <- <-].
      right. left. apply HasPrefix_spec; eexists; reflexivity. }
    rewrite (do_after_read _ _ _ _ _ HDo HRead).
    destruct (negb (StatusCode resp =? StatusOK)).
    { intros [= <- <- <-]. do 2 right. left. apply HasPrefix_spec; eexists; reflexivity. }
    destruct (handleRPCError b) as [[e|]|] eqn:Hh; try done. intros [= <- <- <-].
    destruct (handleRPCError_error_shape _ _ Hh) as [[je ->]|[e0 ->]].
    + do 3 right. left. apply HasPrefix_spec; eexists; reflexivity.
    + do 4 right. apply HasPrefix_spec; eexists; reflexivity.
  - rewrite (do_transport_fails _ _ _ _ _ HDo). intros [= <- <- <-]. left.
    apply HasPrefix_spec; eexists; reflexivity.
  - by rewrite (do_nil_response _ _ _ HDo).
Qed.

End ErrorTexts.

(** ** Repairing a failed bootstrap *)

Section Repair.

Context {C : Type} `{!client C}.
Variables (Constants Block : Type) (Hash : Block → string).
Variable Head : GoTezos (C:=C) Constants → (option Block * option error) * C.
Variable GetConstants :
  GoTezos (C:=C) Constants → string → (option Constants * option error) * C.
Variable http_Client : C.


End Repair.

(** ** Instances on the test double *)

Example do_nil_Body :
  do unit (mock_GoTezos (Some {| StatusCode := 200; Body := None |}, None)) head_request
  = Panic NilDereference.
Proof. reflexivity. Qed.

Lemma do_transport_error_witness :
  ∃ err, do unit (mock_GoTezos (None, Some refused)) head_request
         = Returned (("", Some err),
                     with_client unit (mock_GoTezos (None, Some refused))
                       (mkMock (None, Some refused) [head_request] 0))
         ∧ message err = "failed to complete request: " +:+ message refused
         ∧ Cause err = Cause refused.
Proof.
  apply (do_transport_error (mock_GoTezos (None, Some refused)) head_request None refused).
  reflexivity.
Defined.

Lemma do_read_error_first_witness :
  ∃ err, do unit (mock_GoTezos truncated) head_request
         = Returned (("<html>Bad Gate", Some err),
                     with_client unit (mock_GoTezos truncated)
                       (mkMock truncated [head_request] 0))
         ∧ message err
           = "could not read response body: " +:+ message (External "unexpected EOF")
         ∧ Cause err = Cause (External "unexpected EOF").
Proof.
  apply (do_read_error_first (mock_GoTezos truncated) head_request
           {| StatusCode := 502;
              Body := Some (Chunk "<html>Bad Gate" (ReadFails (External "unexpected EOF"))) |});
    reflexivity.
Defined.

Lemma do_keeps_bytes_witness :
  (∀ resp, Some {| StatusCode := 404; Body := Some (Chunk "not found" EOF) |} = Some resp →
           None = None (A:=error) → ∃ e, ReadAll (Body resp) = Returned ("not found", e))
  ∧ (Some (Errorf "response returned code 404 with body not found") ≠ None →
       with_client unit (mock_GoTezos (answer 404 "not found"))
         (mkMock (answer 404 "not found") [head_request] 0)
       = with_client unit (mock_GoTezos (answer 404 "not found"))
           (mkMock (answer 404 "not found") [head_request] 0)).
Proof.
  apply (do_keeps_bytes (mock_GoTezos (answer 404 "not found")) head_request
           (Some {| StatusCode := 404; Body := Some (Chunk "not found" EOF) |}) None
           (mkMock (answer 404 "not found") [head_request] 0)
           "not found" (Some (Errorf "response returned code 404 with body not found")));
    vm_compute; reflexivity.
Defined.

Lemma do_malformed_error_payload_witness :
  ∃ e, Unmarshal object_body = ([], Some e)
       ∧ do unit (mock_GoTezos (answer 200 object_body)) head_request
         = Returned ((object_body,
                      Some (Wrapped (JSONError e) "could not unmarshal rpc error")),
                     with_client unit (mock_GoTezos (answer 200 object_body))
                       (mkMock (answer 200 object_body) [head_request] 0))
       ∧ (∀ fields, JSON.parse object_body = Some (JSON.VObject fields) →
            e = UnmarshalTypeError "object" "gotezos.RPCErrors" None).
Proof.
  apply (do_malformed_error_payload (mock_GoTezos (answer 200 object_body)) head_request
           {| StatusCode := 200; Body := Some (Chunk object_body EOF) |});
    try (vm_compute; reflexivity).
  intros l. vm_compute. discriminate.
Defined.

Lemma do_error_messages_witness :
  HasPrefix (message (Errorf "response returned code 404 with body not found"))
    "failed to complete request: " = true
  ∨ HasPrefix (message (Errorf "response returned code 404 with body not found"))
      "could not read response body: " = true
  ∨ HasPrefix (message (Errorf "response returned code 404 with body not found"))
      "response returned code " = true
  ∨ HasPrefix (message (Errorf "response returned code 404 with body not found"))
      "could not unmarshal rpc error: " = true
  ∨ HasPrefix (message (Errorf "response returned code 404 with body not found"))
      "rpc error (" = true.
Proof.
  apply (do_error_messages (mock_GoTezos (answer 404 "not found")) head_request "not found"
           (Errorf "response returned code 404 with body not found")
           (with_client unit (mock_GoTezos (answer 404 "not found"))
              (mkMock (answer 404 "not found") [head_request] 0))).
  vm_compute. reflexivity.
Defined.

Lemma facade_construction_error_witness :
  let failure :=
    Returned (("", Some (Wrapped (External "parse: invalid character in URL")
                           "failed to construct request")),
              mock_GoTezos (answer 200 block_body)) in
  get unit example_Parse (mock_GoTezos (answer 200 block_body)) "/chains/ main" [] = failure
  ∧ post unit example_Parse (mock_GoTezos (answer 200 block_body)) "/chains/ main" "{}" []
    = failure
  ∧ delete unit example_Parse (mock_GoTezos (answer 200 block_body)) "/chains/ main" []
    = failure.
Proof.
  apply (facade_construction_error unit example_Parse (mock_GoTezos (answer 200 block_body))
           "/chains/ main" "{}" [] (External "parse: invalid character in URL")).
  reflexivity.
Defined.

Lemma facade_request_witness :
  ∃ query,
    url.ParseQuery query
    = add_options (url.Query (url.mkURL "http://node.example/chains/main/blocks" ""))
        [mkOption "length" "2"]
    ∧ get unit example_Parse (mock_GoTezos (answer 200 block_body)) "/chains/main/blocks"
        [mkOption "length" "2"]
      = do unit (mock_GoTezos (answer 200 block_body))
          {| Method := "GET";
             URL := {| url.Location := "http://node.example/chains/main/blocks";
                       url.RawQuery := query |};
             Payload := "" |}
    ∧ post unit example_Parse (mock_GoTezos (answer 200 block_body)) "/chains/main/blocks"
        "{}" [mkOption "length" "2"]
      = do unit (mock_GoTezos (answer 200 block_body))
          {| Method := "POST";
             URL := {| url.Location := "http://node.example/chains/main/blocks";
                       url.RawQuery := query |};
             Payload := "{}" |}
    ∧ delete unit example_Parse (mock_GoTezos (answer 200 block_body)) "/chains/main/blocks"
        [mkOption "length" "2"]
      = do unit (mock_GoTezos (answer 200 block_body))
          {| Method := "DELETE";
             URL := {| url.Location := "http://node.example/chains/main/blocks";
                       url.RawQuery := query |};
             Payload := "" |}.
Proof.
  apply (facade_request unit example_Parse (mock_GoTezos (answer 200 block_body))
           "/chains/main/blocks" "{}" [mkOption "length" "2"]
           (url.mkURL "http://node.example/chains/main/blocks" "")).
  reflexivity.
Defined.

Lemma calls_keep_host_and_constants_witness :
  host (with_client unit (mock_GoTezos (answer 200 block_body))
          (CloseIdleConnections (mkMock (answer 200 block_body) [head_request] 0)))
  = host (mock_GoTezos (answer 200 block_body))
  ∧ networkConstants
      (with_client unit (mock_GoTezos (answer 200 block_body))
         (CloseIdleConnections (mkMock (answer 200 block_body) [head_request] 0)))
    = networkConstants (mock_GoTezos (answer 200 block_body)).
Proof.
  apply (calls_keep_host_and_constants unit example_Parse
           (mock_GoTezos (answer 200 block_body)) head_request
           "/chains/main/blocks/head" "" [] (block_body, None)).
  left. vm_compute. reflexivity.
Defined.

